(** * frame_mker: EXIF formatting and frame geometry

    A shallow embedding of [frame_mker.py].  The module adds a framed bottom
    band to a photograph and writes the camera parameters read from EXIF into
    it.  The embedding follows the source function by function:

    - Python exceptions are an error monad ([result]); [try]/[except Exception]
      is [try_except];
    - Python floats are IEEE binary64 values, taken from the standard
      library's [spec_float] with its correctly rounded operations;
    - dynamically typed EXIF and template values are the tagged union [pyval];
    - dictionaries ([exif], [out], [params], the template records) are [gmap]s
      with string keys;
    - the imaging library, the file system and the text rasteriser are the
      fields of a [world] record. *)

From Stdlib Require Import ZArith Lia Ascii.
From Stdlib Require Import Floats.SpecFloat.
From stdpp Require Import base option list strings pretty gmap.

Local Open Scope Z_scope.

(** ** Exceptions *)

Inductive exn : Type :=
| TypeError
| ValueError
| OverflowError
| ZeroDivisionError
| NameError (name : string)
| KeyError (key : string)
| OSError.

Inductive result (A : Type) : Type :=
| Ok (a : A)
| Raise (e : exn).
Arguments Ok {A} a.
Arguments Raise {A} e.

Definition rbind {A B : Type} (f : A -> result B) (m : result A) : result B :=
  match m with
  | Ok a => f a
  | Raise e => Raise e
  end.

#[global] Instance result_ret : MRet result := @Ok.
#[global] Instance result_bind : MBind result := @rbind.
#[global] Instance result_fmap : FMap result :=
  fun A B f m => match m with Ok a => Ok (f a) | Raise e => Raise e end.

(** [try: body except Exception: handler].  Every exception of [exn] derives
    from Python's [Exception], so the handler catches all of them. *)
Definition try_except {A : Type} (body : result A) (handler : exn -> result A)
  : result A :=
  match body with
  | Ok a => Ok a
  | Raise e => handler e
  end.

Definition returns {A : Type} (r : result A) : Prop := exists a, r = Ok a.

Definition raises {A : Type} (r : result A) : Prop := exists e, r = Raise e.

(** ** Strings

    A Python [str] is modelled by its UTF-8 bytes.  The operations below act
    on ASCII characters only, which is all the source relies on. *)

Module Str.

Definition chars (s : string) : list ascii := String.list_ascii_of_string s.

Definition of_chars (l : list ascii) : string := String.string_of_list_ascii l.

(** [s.rstrip(c)] for a one-character set [c]. *)
Fixpoint rstrip (c : ascii) (s : string) : string :=
  match s with
  | EmptyString => EmptyString
  | String a r =>
      match rstrip c r with
      | EmptyString => if Ascii.eqb a c then EmptyString else String a EmptyString
      | r' => String a r'
      end
  end.

Fixpoint lstrip_space (s : string) : string :=
  match s with
  | String a r => if Ascii.is_space a then lstrip_space r else s
  | EmptyString => EmptyString
  end.

Fixpoint rstrip_space (s : string) : string :=
  match s with
  | EmptyString => EmptyString
  | String a r =>
      match rstrip_space r with
      | EmptyString => if Ascii.is_space a then EmptyString else String a EmptyString
      | r' => String a r'
      end
  end.

(** [s.strip()] *)
Definition strip (s : string) : string := rstrip_space (lstrip_space s).

Definition lower_char (a : ascii) : ascii :=
  let n := nat_of_ascii a in
  if ((65 <=? n) && (n <=? 90))%nat then ascii_of_nat (n + 32) else a.

(** [s.lower()] *)
Fixpoint lower (s : string) : string :=
  match s with
  | EmptyString => EmptyString
  | String a r => String (lower_char a) (lower r)
  end.

(** [s.endswith(suf)] *)
Definition endswith (s suf : string) : bool :=
  bool_decide (chars suf `suffix_of` chars s).

(** [s.startswith(pre)] *)
Definition startswith (s pre : string) : bool :=
  bool_decide (chars pre `prefix_of` chars s).

(** [sep.join(pieces)] *)
Fixpoint join (sep : string) (pieces : list string) : string :=
  match pieces with
  | [] => ""
  | [p] => p
  | p :: rest => p +:+ sep +:+ join sep rest
  end.

(** Python truth value of a string. *)
Definition nonempty (s : string) : bool :=
  match s with EmptyString => false | _ => true end.

Fixpoint replicate0 (n : nat) : string :=
  match n with O => "" | S k => String "0" (replicate0 k) end.

End Str.

(** ** Binary64 floats *)

Module F64.

Definition prec : Z := 53.
Definition emax : Z := 1024.

Abbreviation float := spec_float.

Definition add : float -> float -> float := SFadd prec emax.
Definition sub : float -> float -> float := SFsub prec emax.
Definition mul : float -> float -> float := SFmul prec emax.
Definition div : float -> float -> float := SFdiv prec emax.
Definition abs : float -> float := SFabs.
Definition ltb : float -> float -> bool := SFltb.
Definition leb : float -> float -> bool := SFleb.

Definition is_finite (x : float) : bool :=
  match x with
  | S754_zero _ | S754_finite _ _ _ => true
  | _ => false
  end.

Definition is_zero (x : float) : bool :=
  match x with
  | S754_zero _ => true
  | _ => false
  end.

Definition valid (x : float) : bool := valid_binary prec emax x.

(** The integer [z] rounded to the nearest float, ties to even; an integer
    beyond the largest float gives an infinity. *)
Definition of_Z (z : Z) : float := binary_normalize prec emax z 0 false.

(** The decimal [m * 10^e] rounded to the nearest float, ties to even: the
    value of a decimal literal. *)
Definition of_decimal (m e : Z) : float :=
  if 0 <=? e then of_Z (m * 10 ^ e)
  else
    let den := S754_finite false (Z.to_pos (10 ^ (- e))) 0 in
    match m with
    | Z0 => S754_zero false
    | Zpos p => div (S754_finite false p 0) den
    | Zneg p => div (S754_finite true p 0) den
    end.

Definition zero : float := S754_zero false.
Definition one : float := Eval vm_compute in of_decimal 1 0.
Definition nan : float := S754_nan.
Definition infinity : float := S754_infinity false.

(** [num / den] rounded to the nearest integer, ties to even ([0 < den]). *)
Definition div_half_even (num den : Z) : Z :=
  let q := num / den in
  let r := num mod den in
  match 2 * r ?= den with
  | Lt => q
  | Gt => q + 1
  | Eq => if Z.even q then q else q + 1
  end.

Definition signed (s : bool) (z : Z) : Z := if s then - z else z.

(** The exact value of a finite float, rounded to the nearest integer with
    ties to even. *)
Definition nearest_int (x : float) : option Z :=
  match x with
  | S754_zero _ => Some 0
  | S754_finite s m e =>
      Some (signed s (if 0 <=? e then Z.pos m * 2 ^ e
                      else div_half_even (Z.pos m) (2 ^ (- e))))
  | _ => None
  end.

(** The exact value of a finite float, truncated toward zero. *)
Definition trunc_int (x : float) : option Z :=
  match x with
  | S754_zero _ => Some 0
  | S754_finite s m e =>
      Some (signed s (if 0 <=? e then Z.pos m * 2 ^ e
                      else Z.pos m / 2 ^ (- e)))
  | _ => None
  end.

(** The digits of [n >= 0] with the decimal point placed [nd] digits from
    the right. *)
Definition place_point (nd : nat) (n : Z) : string :=
  let ds := pretty n in
  let ds := Str.replicate0 (S nd - String.length ds) +:+ ds in
  let k := (String.length ds - nd)%nat in
  match nd with
  | O => ds
  | _ => String.substring 0 k ds +:+ "." +:+ String.substring k nd ds
  end.

(** [format(x, ".<nd>f")]: the exact value rounded to [nd] decimals, ties
    to even. *)
Definition to_fixed (nd : nat) (x : float) : string :=
  match x with
  | S754_nan => "nan"
  | S754_infinity s => if s then "-inf" else "inf"
  | S754_zero s => (if s then "-" else "") +:+ place_point nd 0
  | S754_finite s m e =>
      let scaled := Z.pos m * 10 ^ Z.of_nat nd in
      let n := if 0 <=? e then scaled * 2 ^ e
               else div_half_even scaled (2 ^ (- e)) in
      (if s then "-" else "") +:+ place_point nd n
  end.

End F64.

Abbreviation float := spec_float.

(** ** Python values

    The values an EXIF reader hands out and the values the template catalog
    holds.  [VRational num den] is the imaging library's rational
    ([IFDRational]), which converts itself to a float. *)

#[warnings="-register-all"]
Inductive pyval : Type :=
| VNone
| VBool (b : bool)
| VInt (z : Z)
| VFloat (x : float)
| VRational (num den : Z)
| VStr (s : string)
| VBytes (s : string)
| VTuple (items : list pyval)
| VList (items : list pyval).

(** *** Numeric literals read from text *)

Module Parse.

Definition digit_val (a : ascii) : option Z := Z.of_nat <$> Ascii.is_nat a.

Definition starts_with_digit (l : list ascii) : bool :=
  match l with
  | a :: _ => bool_decide (is_Some (digit_val a))
  | [] => false
  end.

(** [digitpart ::= digit (["_"] digit)*]: reads the longest digit part at
    the head of [l] on top of the accumulator [acc]; [n] counts the digits
    read so far. *)
Fixpoint read_digits (acc : Z) (n : nat) (l : list ascii)
  : Z * nat * list ascii :=
  match l with
  | a :: r =>
      match digit_val a with
      | Some d => read_digits (10 * acc + d) (S n) r
      | None =>
          if Ascii.eqb a "_" && negb (Nat.eqb n 0) && starts_with_digit r
          then read_digits acc n r
          else (acc, n, l)
      end
  | [] => (acc, n, l)
  end.

Definition read_sign (l : list ascii) : bool * list ascii :=
  match l with
  | "-"%char :: r => (true, r)
  | "+"%char :: r => (false, r)
  | _ => (false, l)
  end.

Definition finite_of (neg : bool) (m e : Z) : float :=
  if m =? 0 then S754_zero neg
  else F64.of_decimal (F64.signed neg m) e.

(** The text accepted by [float(str)]: optional sign, then [inf],
    [infinity], [nan] in any case, or a decimal number with an optional
    exponent; surrounding blanks are ignored. *)
Definition float_literal (s : string) : option float :=
  let '(neg, body) := read_sign (Str.chars (Str.strip s)) in
  let word := Str.lower (Str.of_chars body) in
  if bool_decide (word = "inf" ∨ word = "infinity") then Some (S754_infinity neg)
  else if bool_decide (word = "nan") then Some S754_nan
  else
    let '(ip, ni, l1) := read_digits 0 0 body in
    let '(fp, nf, l2) :=
      match l1 with
      | "."%char :: r => read_digits ip 0 r
      | _ => (ip, 0%nat, l1)
      end in
    if Nat.eqb (ni + nf) 0 then None
    else
      match l2 with
      | [] => Some (finite_of neg fp (- Z.of_nat nf))
      | a :: r =>
          if Ascii.eqb a "e" || Ascii.eqb a "E" then
            let '(eneg, r1) := read_sign r in
            let '(ev, ne, rest) := read_digits 0 0 r1 in
            match ne, rest with
            | S _, [] => Some (finite_of neg fp (F64.signed eneg ev - Z.of_nat nf))
            | _, _ => None
            end
          else None
      end.

(** The text accepted by [int(str)] in base ten. *)
Definition int_literal (s : string) : option Z :=
  let '(neg, body) := read_sign (Str.chars (Str.strip s)) in
  match read_digits 0 0 body with
  | (v, S _, []) => Some (F64.signed neg v)
  | _ => None
  end.

End Parse.

(** *** Builtin conversions *)

Definition float_of_int (z : Z) : result float :=
  let x := F64.of_Z z in
  if F64.is_finite x then Ok x else Raise OverflowError.

(** [a / b] on floats. *)
Definition float_truediv (a b : float) : result float :=
  if F64.is_zero b then Raise ZeroDivisionError else Ok (F64.div a b).

(** [float(IFDRational(num, den))]: the quotient rounded once; a zero
    denominator gives a NaN. *)
Definition rational_float (num den : Z) : result float :=
  match num, den with
  | _, Z0 => Ok F64.nan
  | Z0, _ => Ok F64.zero
  | (Zpos n | Zneg n), (Zpos d | Zneg d) =>
      let s := xorb (num <? 0) (den <? 0) in
      let q := F64.div (S754_finite s n 0) (S754_finite false d 0) in
      if F64.is_finite q then Ok q else Raise OverflowError
  end.

(** [float(v)] *)
Definition py_float (v : pyval) : result float :=
  match v with
  | VNone => Raise TypeError
  | VBool b => Ok (if b then F64.one else F64.zero)
  | VInt z => float_of_int z
  | VFloat x => Ok x
  | VRational n d => rational_float n d
  | VStr s | VBytes s =>
      match Parse.float_literal s with
      | Some x => Ok x
      | None => Raise ValueError
      end
  | VTuple _ | VList _ => Raise TypeError
  end.

(** [round(x)] on a float: the nearest integer, ties to even. *)
Definition py_round (x : float) : result Z :=
  match x with
  | S754_nan => Raise ValueError
  | S754_infinity _ => Raise OverflowError
  | _ => match F64.nearest_int x with Some z => Ok z | None => Raise ValueError end
  end.

(** [int(x)] on a float: truncation toward zero. *)
Definition int_of_float (x : float) : result Z :=
  match x with
  | S754_nan => Raise ValueError
  | S754_infinity _ => Raise OverflowError
  | _ => match F64.trunc_int x with Some z => Ok z | None => Raise ValueError end
  end.

(** [int(v)] *)
Definition py_int (v : pyval) : result Z :=
  match v with
  | VNone => Raise TypeError
  | VBool b => Ok (if b then 1 else 0)
  | VInt z => Ok z
  | VFloat x => int_of_float x
  | VRational n d => if d =? 0 then Raise ValueError else Ok (Z.quot n d)
  | VStr s | VBytes s =>
      match Parse.int_literal s with
      | Some z => Ok z
      | None => Raise ValueError
      end
  | VTuple _ | VList _ => Raise TypeError
  end.

(** Python truth value, as tested by [if v], [a or b] and [a and b]. *)
Definition truthy (v : pyval) : bool :=
  match v with
  | VNone => false
  | VBool b => b
  | VInt z => negb (z =? 0)
  | VFloat x => negb (F64.is_zero x)
  | VRational n d => negb (n =? 0) || (d =? 0)
  | VStr s | VBytes s => Str.nonempty s
  | VTuple l | VList l => match l with [] => false | _ => true end
  end.

(** [a or b] *)
Definition py_or (a b : pyval) : pyval := if truthy a then a else b.

(** Float literals of the source. *)
Definition lit_1_0 : float := Eval vm_compute in F64.of_decimal 10 (-1).
Definition lit_0_02 : float := Eval vm_compute in F64.of_decimal 2 (-2).
Definition lit_0_05 : float := Eval vm_compute in F64.of_decimal 5 (-2).

(** ** EXIF formatting (source lines 45-121) *)

(** [isinstance(val, (tuple, list)) and len(val) == 2], with the unpacking
    [num, den = val]. *)
Definition as_pair (val : pyval) : option (pyval * pyval) :=
  match val with
  | VTuple [num; den] | VList [num; den] => Some (num, den)
  | _ => None
  end.

Definition _rational_to_float (val : pyval) : result (option float) :=
  match py_float val with
  | Ok x => Ok (Some x)
  | Raise _ =>
      match as_pair val with
      | Some (num, den) =>
          try_except
            (a ← py_float num; b ← py_float den;
             q ← float_truediv a b; Ok (Some q))
            (fun _ => Ok None)
      | None =>
          try_except (x ← py_float val; Ok (Some x)) (fun _ => Ok None)
      end
  end.

Definition _format_exposure_time (val : pyval) : result (option string) :=
  t ← _rational_to_float val;
  match t with
  | None => Ok None
  | Some t =>
      if F64.leb t F64.zero then Ok None
      else if F64.ltb t lit_1_0 then
        q ← float_truediv lit_1_0 t;
        denom ← py_round q;
        close ← (if 0 <? denom then
                   fd ← float_of_int denom;
                   x ← float_truediv lit_1_0 fd;
                   Ok (F64.ltb (F64.abs (F64.sub x t)) (F64.mul lit_0_02 t))
                 else Ok false);
        if close : bool then Ok (Some ("1/" +:+ pretty denom +:+ "s"))
        else Ok (Some (F64.to_fixed 3 t +:+ "s"))
      else
        r ← py_round t;
        fr ← float_of_int r;
        if F64.ltb (F64.abs (F64.sub t fr)) lit_0_05 then
          r' ← py_round t;
          Ok (Some (pretty r' +:+ "s"))
        else Ok (Some (F64.to_fixed 1 t +:+ "s"))
  end.

Definition _format_fnumber (val : pyval) : result (option string) :=
  f ← _rational_to_float val;
  match f with
  | None => Ok None
  | Some f =>
      if F64.leb f F64.zero then Ok None
      else Ok (Some (Str.rstrip "." (Str.rstrip "0" ("F" +:+ F64.to_fixed 1 f))))
  end.

(** The return statement formats the name [f], which is bound neither in
    the function (its local is [fl]) nor in the module. *)
Definition _format_focal (val : pyval) : result (option string) :=
  fl ← _rational_to_float val;
  match fl with
  | None => Ok None
  | Some fl =>
      if F64.leb fl F64.zero then Ok None
      else
        f ← (Raise (NameError "f") : result float);
        Ok (Some (Str.rstrip "." (Str.rstrip "0" (F64.to_fixed 1 f +:+ "mm"))))
  end.

(** ** Collaborators

    What the module obtains from the interpreter, the imaging library and
    the operating system. *)

Record image : Type := {
  img_size : Z * Z;                          (* [img.size] *)
  img_mode : string;                         (* [img.mode] *)
  img_exif : result (list (Z * pyval));      (* [img.getexif().items()] *)
}.

Inductive font : Type :=
| TrueType (path : string) (size : Z)
| DefaultFont.

Record world : Type := {
  py_repr : pyval -> string;                 (* [repr] of floats, rationals, bytes, sequences *)
  TAGS : Z -> option string;                 (* [ExifTags.TAGS] *)
  path_exists : string -> bool;              (* [os.path.exists] *)
  getcwd : string;                           (* [os.getcwd()] *)
  image_open : string -> result image;       (* [Image.open] *)
  image_convert : image -> string -> result image;   (* [img.convert(mode)] *)
  image_resize : image -> Z -> Z -> result image;    (* [img.resize((w, h), LANCZOS)] *)
  font_error : string -> Z -> option exn;    (* what [ImageFont.truetype(p, size)] raises *)
  textbbox : font -> string -> Z * Z;        (* [draw.textbbox((0, 0), text, font)[2:]] *)
  makedirs : string -> result unit;          (* [os.makedirs(d, exist_ok=True)] *)
  save : string -> result unit;              (* [img.save(path, quality=95)] *)
}.

(** [str(v)], which is also [format(v, "")] inside an f-string. *)
Definition py_str (W : world) (v : pyval) : string :=
  match v with
  | VNone => "None"
  | VBool b => if b then "True" else "False"
  | VInt z => pretty z
  | VStr s => s
  | _ => py_repr W v
  end.

(** [d.get(key)] on a dictionary of Python values. *)
Definition get (d : gmap string pyval) (key : string) : pyval :=
  default VNone (d !! key).

(** [d[key]] *)
Definition getitem {A : Type} (d : gmap string A) (key : string) : result A :=
  match d !! key with
  | Some v => Ok v
  | None => Raise (KeyError key)
  end.

(** ** EXIF extraction (source lines 23-42 and 123-177) *)

(** A tag without a name in [TAGS] is stored under its numeric id; every
    later lookup is by name, so the map keeps the named entries. *)
Definition _get_exif_dict (W : world) (img : image) : gmap string pyval :=
  match img_exif img with
  | Ok raw =>
      foldl (fun exif '(tag_id, value) =>
               match TAGS W tag_id with
               | Some tag_name => <[tag_name := value]> exif
               | None => exif
               end) ∅ raw
  | Raise _ => ∅
  end.

(** The ISO block of [extract_camera_params] (source lines 159-166). *)
Definition iso_string (W : world) (iso : pyval) : option string :=
  match
    try_except
      (iso_val ← match iso with
                 | VTuple (x :: _) | VList (x :: _) => Ok x
                 | _ => VInt <$> py_int iso
                 end;
       Ok (Some ("ISO" +:+ py_str W iso_val)))
      (fun _ => Ok None)
  with
  | Ok r => r
  | Raise _ => None
  end.

Definition put (key : string) (s : option string) (out : gmap string string)
  : gmap string string :=
  match s with
  | Some v => if Str.nonempty v then <[key := v]> out else out
  | None => out
  end.

Definition if_not_none (fmt : pyval -> result (option string)) (v : pyval)
  : result (option string) :=
  match v with
  | VNone => Ok None
  | _ => fmt v
  end.

Definition extract_camera_params (W : world) (img : image)
  : result (gmap string string) :=
  let exif := _get_exif_dict W img in
  let out : gmap string string := ∅ in
  let brand := Str.strip (py_str W (default (VStr "") (exif !! "Make"))) in
  let model := Str.strip (py_str W (default (VStr "") (exif !! "Model"))) in
  let out := put "brand" (Some brand) out in
  let out := put "model" (Some model) out in
  let lens := py_or (get exif "LensModel") (get exif "LensMake") in
  let out := if truthy lens then <["lens" := Str.strip (py_str W lens)]> out else out in
  let focal := get exif "FocalLength" in
  let fnumber := py_or (get exif "FNumber") (get exif "ApertureValue") in
  let shutter := py_or (get exif "ExposureTime") (get exif "ShutterSpeedValue") in
  let iso := py_or (get exif "ISOSpeedRatings") (get exif "PhotographicSensitivity") in
  focal_s ← if_not_none _format_focal focal;
  fnum_s ← if_not_none _format_fnumber fnumber;
  shutter_s ← if_not_none _format_exposure_time shutter;
  let iso_s := iso_string W iso in
  let out := put "focal" focal_s out in
  let out := put "fnumber" fnum_s out in
  let out := put "shutter" shutter_s out in
  let out := put "iso" iso_s out in
  Ok out.

(** ** Template catalog (source lines 183-215) *)

Definition flt (m e : Z) : pyval := VFloat (F64.of_decimal m e).

Definition rgb (r g b : Z) : pyval := VTuple [VInt r; VInt g; VInt b].

Definition Nikon_like : gmap string pyval :=
  <["border_px" := VInt 20]> $
  <["bottom_band_ratio" := flt 18 (-2)]> $
  <["bg_color" := rgb 255 255 255]> $
  <["border_color" := rgb 0 0 0]> $
  <["text_color" := rgb 0 0 0]> $
  <["brand_font_size_ratio" := flt 6 (-2)]> $
  <["meta_font_size_ratio" := flt 26 (-3)]> $
  <["logo_max_height_ratio" := flt 8 (-2)]> $
  <["gap_ratio" := flt 15 (-3)]> $
  <["use_logo" := VBool true]> $
  <["show_brand_text" := VBool true]> $
  <["show_meta_text" := VBool true]> ∅.

Definition minimal_black : gmap string pyval :=
  <["border_px" := VInt 0]> $
  <["bottom_band_ratio" := flt 14 (-2)]> $
  <["bg_color" := rgb 0 0 0]> $
  <["border_color" := rgb 255 255 255]> $
  <["text_color" := rgb 255 255 255]> $
  <["brand_font_size_ratio" := flt 55 (-3)]> $
  <["logo_max_height_ratio" := flt 8 (-2)]> $
  <["gap_ratio" := flt 12 (-3)]> $
  <["use_logo" := VBool true]> $
  <["show_brand_text" := VBool false]> ∅.

Definition DeFAULT_TEMPLATE : gmap string (gmap string pyval) :=
  <["Nikon_like" := Nikon_like]> $ <["minimal_black" := minimal_black]> ∅.

(** ** Drawing tools (source lines 219-287) *)

Definition truetype (W : world) (p : string) (size : Z) : result font :=
  match font_error W p size with
  | None => Ok (TrueType p size)
  | Some e => Raise e
  end.

(** The handler of the [try] formats the name [path], which is bound
    neither in the function (the loop variable is [p]) nor in the module. *)
Fixpoint load_font (W : world) (preferred_paths : list string) (size : Z)
  : result font :=
  match preferred_paths with
  | [] => Ok DefaultFont
  | p :: rest =>
      if Str.nonempty p && path_exists W p then
        match truetype W p size with
        | Ok f => Ok f
        | Raise e =>
            _ ← (Raise (NameError "path") : result string);
            load_font W rest size
        end
      else load_font W rest size
  end.

Inductive draw_op : Type :=
| Rectangle (x0 y0 x1 y1 : Z) (outline : pyval)
| Paste (im : image) (x y : Z)
| AlphaComposite (im : image) (x y : Z)
| Text (x y : Z) (text : string) (fnt : font) (fill : pyval).

Record canvas : Type := {
  cv_width : Z;
  cv_height : Z;
  cv_fill : pyval;
  cv_ops : list draw_op;
}.

Definition draw (op : draw_op) (cv : canvas) : canvas :=
  {| cv_width := cv_width cv; cv_height := cv_height cv;
     cv_fill := cv_fill cv; cv_ops := cv_ops cv ++ [op] |}.

Definition draw_centered_text (W : world) (cv : canvas) (text : string)
    (fnt : font) (canvas_w y : Z) (color : pyval) : canvas * Z :=
  let '(text_w, text_h) := textbbox W fnt text in
  let x := (canvas_w - text_w) `div` 2 in
  (draw (Text x y text fnt color) cv, y + text_h).

(** The [try] block of [paste_logo_center] (source lines 270-272). *)
Definition open_rgba (W : world) (logo_path : string) : result image :=
  logo ← image_open W logo_path;
  if bool_decide (img_mode logo ≠ "RGBA") then image_convert W logo "RGBA"
  else Ok logo.

(** After the resize, the source unpacks the image object itself
    ([w, h = logo]) instead of its size; an image is not iterable. *)
Definition paste_logo_center (W : world) (cv : canvas) (logo_path : string)
    (max_height y : Z) : result (canvas * (Z * Z)) :=
  match open_rgba W logo_path with
  | Raise _ => Ok (cv, (y, 0))
  | Ok logo =>
      let '(w, h) := img_size logo in
      '(logo, (w, h)) ←
        (if max_height <? h then
           fh ← float_of_int h;
           fm ← float_of_int max_height;
           scale ← float_truediv fm fh;
           fw ← float_of_int w;
           nw ← int_of_float (F64.mul fw scale);
           nh ← int_of_float (F64.mul fh scale);
           logo ← image_resize W logo nw nh;
           wh ← (Raise TypeError : result (Z * Z));
           Ok (logo, wh)
         else Ok (logo, (w, h)));
      let x := (cv_width cv - w) `div` 2 in
      Ok (draw (AlphaComposite logo x y) cv, (y + h, h))
  end.

(** ** Paths ([os.path] on a POSIX system) *)

Module Path.

(** [p[:p.rfind("/") + 1]] *)
Fixpoint upto_last_sep (p : string) : string :=
  match p with
  | EmptyString => EmptyString
  | String a r =>
      match upto_last_sep r with
      | EmptyString => if Ascii.eqb a "/" then String a EmptyString else EmptyString
      | head => String a head
      end
  end.

Fixpoint all_sep (p : string) : bool :=
  match p with
  | EmptyString => true
  | String a r => Ascii.eqb a "/" && all_sep r
  end.

Definition dirname (p : string) : string :=
  let head := upto_last_sep p in
  if Str.nonempty head && negb (all_sep head) then Str.rstrip "/" head
  else head.

Definition join (a b : string) : string :=
  if Str.startswith b "/" then b
  else if negb (Str.nonempty a) || Str.endswith a "/" then a +:+ b
  else a +:+ "/" +:+ b.

End Path.

(** ** Frame composition (source lines 291-408) *)

Definition default_fonts : list string :=
  ["arial.ttf"; "SimHei.ttf"; "SourceHanSansCN-Regular.otf";
   "/usr/share/fonts/truetype/dejavu/DejaVuSans.ttf";
   "/Library/Fonts/Arial.ttf"].

Fixpoint repeat_list {A : Type} (n : nat) (l : list A) : list A :=
  match n with O => [] | S k => l ++ repeat_list k l end.

Fixpoint repeat_string (n : nat) (s : string) : string :=
  match n with O => "" | S k => s +:+ repeat_string k s end.

(** [v * n] for an integer [n]. *)
Definition py_mul_int (v : pyval) (n : Z) : result pyval :=
  match v with
  | VNone => Raise TypeError
  | VBool b => Ok (VInt ((if b then 1 else 0) * n))
  | VInt a => Ok (VInt (a * n))
  | VFloat x => fn ← float_of_int n; Ok (VFloat (F64.mul x fn))
  | VRational a b => if b =? 0 then Ok (VFloat F64.nan) else Ok (VRational (a * n) b)
  | VStr s => Ok (VStr (repeat_string (Z.to_nat n) s))
  | VBytes s => Ok (VBytes (repeat_string (Z.to_nat n) s))
  | VTuple l => Ok (VTuple (repeat_list (Z.to_nat n) l))
  | VList l => Ok (VList (repeat_list (Z.to_nat n) l))
  end.

(** [v + (255,)] *)
Definition py_add_tuple (v : pyval) (t : list pyval) : result pyval :=
  match v with
  | VTuple l => Ok (VTuple (l ++ t))
  | _ => Raise TypeError
  end.

(** [int(tpl[key] * n)] *)
Definition scaled (tpl : gmap string pyval) (key : string) (n : Z) : result Z :=
  v ← getitem tpl key;
  p ← py_mul_int v n;
  py_int p.

Definition meta_keys : list string := ["focal"; "fnumber"; "shutter"; "iso"].

(** Source lines 329-332. *)
Definition meta_pieces (params : gmap string string) : list string :=
  foldl (fun pieces key =>
           match params !! key with
           | Some v => if Str.nonempty v then pieces ++ [v] else pieces
           | None => pieces
           end) [] meta_keys.

(** Source line 333. *)
Definition meta_line_of (params : gmap string string) : string :=
  match meta_pieces params with
  | [] => "No EXIF Data"
  | pieces => Str.join "  " pieces
  end.

(** Source lines 339-342: the border and the canvas size. *)
Definition canvas_size (tpl : gmap string pyval) (w h : Z)
  : result (Z * (Z * Z)) :=
  b ← getitem tpl "border_px";
  border_px ← py_int b;
  bang_h ← scaled tpl "bottom_band_ratio" w;
  let canvas_w := w + 2 * border_px in
  let canvas_h := h + bang_h + border_px * 2 in
  Ok (border_px, (canvas_w, canvas_h)).

(** Source lines 395-400: where the result is written. *)
Definition output_path (W : world) (out_path : string) : string :=
  let out_path :=
    if Str.nonempty (Path.dirname out_path) then out_path
    else Path.join (getcwd W) out_path in
  if Str.endswith (Str.lower out_path) ".jpg" then out_path
  else out_path +:+ ".jpg".

Record framed : Type := {
  saved_path : string;
  saved_canvas : canvas;
}.

(** The body of [make_framed_image] once the template is chosen and the
    source is open. *)
Definition compose (W : world) (tpl : gmap string pyval) (src : image)
    (out_path : string) (logo_path : option string)
    (preferred_fonts : list string) : result framed :=
  let '(w, h) := img_size src in
  params ← extract_camera_params W src;
  let meta_line := meta_line_of params in
  let brand_text :=
    match params !! "brand" with
    | Some b => if Str.nonempty b then b else "Canon"
    | None => "Canon"
    end in
  '(border_px, (canvas_w, canvas_h)) ← canvas_size tpl w h;
  bg ← getitem tpl "bg_color";
  fill ← py_add_tuple bg [VInt 255];
  let cv := {| cv_width := canvas_w; cv_height := canvas_h;
               cv_fill := fill; cv_ops := [] |} in
  cv ← (if 0 <? border_px then
          outline ← getitem tpl "border_color";
          Ok (draw (Rectangle 0 0 (canvas_w - 1) (canvas_h - 1) outline) cv)
        else Ok cv);
  let cv := draw (Paste src border_px border_px) cv in
  let band_top := border_px + h in
  let band_bottom := canvas_h - border_px in
  let band_height := band_bottom - band_top in
  brand_size ← scaled tpl "brand_font_size_ratio" canvas_w;
  let brand_font_size := Z.max 12 brand_size in
  meta_size ← scaled tpl "meta_font_size_ratio" canvas_w;
  let meta_font_size := Z.max 10 meta_size in
  gap ← scaled tpl "gap_ratio" canvas_w;
  logo_max_h ← scaled tpl "logo_max_height_ratio" canvas_w;
  brand_font ← load_font W preferred_fonts brand_font_size;
  meta_font ← load_font W preferred_fonts meta_font_size;
  let cur_y :=
    band_top +
    Z.max 4 ((band_height - (logo_max_h + brand_font_size + meta_font_size + gap)) `div` 2) in
  use_logo ← getitem tpl "use_logo";
  '(cv, cur_y) ←
    (match logo_path with
     | Some lp =>
         if truthy use_logo && Str.nonempty lp && path_exists W lp then
           '(cv, (cur_y, logo_h)) ← paste_logo_center W cv lp logo_max_h cur_y;
           Ok (cv, cur_y + gap `div` 2)
         else Ok (cv, cur_y)
     | None => Ok (cv, cur_y)
     end);
  text_color ←
    (if truthy (default (VBool true) (tpl !! "show_brand_text")) && Str.nonempty brand_text
     then Some <$> getitem tpl "text_color" else Ok None);
  let '(cv, cur_y) :=
    match text_color with
    | Some color =>
        let '(cv, y) := draw_centered_text W cv brand_text brand_font canvas_w cur_y color in
        (cv, y + gap)
    | None => (cv, cur_y)
    end in
  cv ← (if Str.nonempty meta_line then
          color ← getitem tpl "text_color";
          Ok (draw_centered_text W cv meta_line meta_font canvas_w cur_y color).1
        else Ok cv);
  let out_path := output_path W out_path in
  let out_dir := Path.dirname out_path in
  _ ← (if Str.nonempty out_dir then makedirs W out_dir else Ok ());
  _ ← save W out_path;
  Ok {| saved_path := out_path; saved_canvas := cv |}.

(** [Image.open(img_path).convert("RGB")] (source line 319). *)
Definition open_rgb (W : world) (img_path : string) : result image :=
  im ← image_open W img_path;
  image_convert W im "RGB".

(** [make_framed_image] returns [None]; the model returns what was saved,
    or [None] when the source could not be opened and nothing was written. *)
Definition make_framed_image (W : world) (img_path out_path : string)
    (logo_path : option string) (template_name : string)
    (preferred_fonts : option (list string)) : result (option framed) :=
  let preferred_fonts := default default_fonts preferred_fonts in
  let tpl := default Nikon_like (DeFAULT_TEMPLATE !! template_name) in
  match open_rgb W img_path with
  | Raise _ => Ok None
  | Ok src => Some <$> compose W tpl src out_path logo_path preferred_fonts
  end.

(** ** Command line (source lines 411-478) *)

Module Slice.

(** [p.rfind(c)]: the index of the last [c], or [-1]. *)
Fixpoint rfind (c : ascii) (p : string) : Z :=
  match p with
  | EmptyString => -1
  | String a r =>
      let i := rfind c r in
      if 0 <=? i then i + 1
      else if Ascii.eqb a c then 0 else -1
  end.

(** [p[:i]] and [p[i:]] for [0 <= i]. *)
Definition upto (i : Z) (p : string) : string :=
  Str.of_chars (take (Z.to_nat i) (Str.chars p)).

Definition from (i : Z) (p : string) : string :=
  Str.of_chars (drop (Z.to_nat i) (Str.chars p)).

(** [p[i:i+1]] *)
Definition at_index (i : Z) (p : string) : string :=
  Str.of_chars (take 1 (drop (Z.to_nat i) (Str.chars p))).

End Slice.

(** The loop of [os.path.splitext] that skips the dots leading the file
    name: it runs [filenameIndex] from the start of the name up to the last
    dot. *)
Fixpoint skip_leading_dots (fuel : nat) (p : string) (dotIndex filenameIndex : Z)
  : string * string :=
  match fuel with
  | O => (p, "")
  | S fuel' =>
      if filenameIndex <? dotIndex then
        if bool_decide (Slice.at_index filenameIndex p ≠ ".")
        then (Slice.upto dotIndex p, Slice.from dotIndex p)
        else skip_leading_dots fuel' p dotIndex (filenameIndex + 1)
      else (p, "")
  end.

(** [os.path.splitext(p)] *)
Definition splitext (p : string) : string * string :=
  let sepIndex := Slice.rfind "/" p in
  let dotIndex := Slice.rfind "." p in
  if sepIndex <? dotIndex
  then skip_leading_dots (Z.to_nat (dotIndex - sepIndex)) p dotIndex (sepIndex + 1)
  else (p, "").

(** [os.path.basename(p)] *)
Definition basename (p : string) : string :=
  Slice.from (Slice.rfind "/" p + 1) p.

Definition image_extensions : list string :=
  [".png"; ".jpg"; ".jpeg"; ".bmp"; ".gif"].

Definition is_image_file (name : string) : bool :=
  let ext := Str.lower (splitext name).2 in
  bool_decide (ext ∈ image_extensions).

(** The namespace [parser.parse_args()] returns: an option that was not
    given is [None], [--template] defaults to "Nikon_like" and [--font]
    collects its occurrences. *)
Record arguments : Type := {
  arg_input : option string;
  arg_input_dir : option string;
  arg_out : option string;
  arg_output_dir : option string;
  arg_logo : option string;
  arg_template : string;
  arg_font : list string;
}.

(** What ends [main] early: [SystemExit], the missing attribute of the
    namespace, or an exception that [make_framed_image] lets through. *)
Inductive cli_exn : Type :=
| SystemExit
| AttributeError (name : string)
| Uncaught (e : exn).

(** What [main] did: one composition, or one caught outcome per image of
    the directory. *)
Inductive run : Type :=
| Single (r : option framed)
| Batch (rs : list (result (option framed))).

(** Truth value of an optional string argument. *)
Definition given (a : option string) : bool :=
  match a with
  | Some s => Str.nonempty s
  | None => false
  end.

Definition lift {A : Type} (r : result A) : cli_exn + A :=
  match r with
  | Ok a => inr a
  | Raise e => inl (Uncaught e)
  end.

(** Source lines 448-449: the output name when [--out] is not given. *)
Definition default_out (input : string) : string :=
  (splitext (basename input)).1 +:+ "_framed".

(** The body of the batch loop (source lines 464-478).  The namespace has
    no attribute [out_dir] (the option is [--output_dir]), so the loop body
    stops where it reads it, outside the [try]. *)
Fixpoint batch_loop (W : world) (args : arguments) (preferred_fonts : list string)
    (names : list string) : cli_exn + list (result (option framed)) :=
  match names with
  | [] => inr []
  | name :: rest =>
      if negb (is_image_file name) then batch_loop W args preferred_fonts rest
      else
        match arg_input_dir args with
        | None => inl (Uncaught TypeError)
        | Some input_dir =>
            let inp := Path.join input_dir name in
            match (inl (AttributeError "out_dir") : cli_exn + string) with
            | inl e => inl e
            | inr out_dir =>
                let outp := Path.join out_dir ((splitext name).1 +:+ "_framed.jpg") in
                (* an exception of the composition is caught and printed *)
                let r := make_framed_image W inp outp (arg_logo args)
                           (arg_template args) (Some preferred_fonts) in
                match batch_loop W args preferred_fonts rest with
                | inl e => inl e
                | inr rs => inr (r :: rs)
                end
            end
        end
  end.

(** [main], from the parsed arguments on; [listdir] is [os.listdir]. *)
Definition main (W : world) (listdir : option string -> result (list string))
    (args : arguments) : cli_exn + run :=
  let preferred_fonts := arg_font args ++ default_fonts in
  if given (arg_input args) then
    let input := default "" (arg_input args) in
    let out := if given (arg_out args) then default "" (arg_out args)
               else default_out input in
    match make_framed_image W input out (arg_logo args) (arg_template args)
            (Some preferred_fonts) with
    | Ok r => inr (Single r)
    | Raise e => inl (Uncaught e)
    end
  else
    if negb (given (arg_output_dir args)) then inl SystemExit
    else
      match (inl (AttributeError "out_dir") : cli_exn + string) with
      | inl e => inl e
      | inr out_dir =>
          match lift (makedirs W out_dir) with
          | inl e => inl e
          | inr _ =>
              match lift (listdir (arg_input_dir args)) with
              | inl e => inl e
              | inr names =>
                  match batch_loop W args preferred_fonts names with
                  | inl e => inl e
                  | inr rs => inr (Batch rs)
                  end
              end
          end
      end.

(** * Specification-side definitions *)

(** The normalizer as the specification words it: the direct coercion when
    it succeeds; otherwise, for a two-element pair, the quotient of the
    coerced elements unless an element does not coerce or the denominator is
    zero; otherwise nothing. *)
Definition normalize_spec (val : pyval) : option float :=
  match py_float val with
  | Ok x => Some x
  | Raise _ =>
      match as_pair val with
      | Some (num, den) =>
          match py_float num, py_float den with
          | Ok a, Ok b => if F64.is_zero b then None else Some (F64.div a b)
          | _, _ => None
          end
      | None => None
      end
  end.

(** ** A concrete world

    One photograph, one logo and a few fonts, used to run the functions. *)

Module Sample.

Definition tags (id : Z) : option string :=
  match id with
  | 271 => Some "Make"
  | 272 => Some "Model"
  | 33434 => Some "ExposureTime"
  | 33437 => Some "FNumber"
  | 34855 => Some "ISOSpeedRatings"
  | 37386 => Some "FocalLength"
  | _ => None
  end.

Definition photo (exif : list (Z * pyval)) : image :=
  {| img_size := (1003, 700); img_mode := "RGB"; img_exif := Ok exif |}.

Definition logo : image :=
  {| img_size := (200, 100); img_mode := "RGBA"; img_exif := Ok [] |}.

Definition small_logo : image :=
  {| img_size := (120, 60); img_mode := "RGBA"; img_exif := Ok [] |}.

Definition dejavu : string := "/usr/share/fonts/truetype/dejavu/DejaVuSans.ttf".

(** [photo.jpg] carries [exif]; [logo.png] and [small.png] decode,
    [corrupt.png] exists and does not; [broken.ttf] exists and does not
    load. *)
Definition world_of (exif : list (Z * pyval)) : world :=
  {| py_repr := fun _ => "<repr>";
     TAGS := tags;
     path_exists := fun p =>
       bool_decide (p ∈ ["photo.jpg"; "logo.png"; "small.png"; "corrupt.png";
                         "broken.ttf"; dejavu]);
     getcwd := "/home/user";
     image_open := fun p =>
       if bool_decide (p = "photo.jpg") then Ok (photo exif)
       else if bool_decide (p = "logo.png") then Ok logo
       else if bool_decide (p = "small.png") then Ok small_logo
       else Raise OSError;
     image_convert := fun im mode =>
       Ok {| img_size := img_size im; img_mode := mode; img_exif := img_exif im |};
     image_resize := fun im w h =>
       Ok {| img_size := (w, h); img_mode := img_mode im; img_exif := img_exif im |};
     font_error := fun p _ =>
       if bool_decide (p = "broken.ttf") then Some OSError else None;
     textbbox := fun _ text => (10 * Z.of_nat (String.length text), 20);
     makedirs := fun _ => Ok ();
     save := fun _ => Ok () |}.

(** Make, aperture, shutter and ISO, without a focal length. *)
Definition exif_no_focal : list (Z * pyval) :=
  [(271, VStr "Nikon"); (272, VStr "Z6"); (33437, flt 18 (-1));
   (33434, flt 1 (-2)); (34855, VInt 100)].

(** The scenario of the specification: the same with [FocalLength = 50]. *)
Definition exif_full : list (Z * pyval) := (37386, VInt 50) :: exif_no_focal.

Definition blank (w h : Z) : canvas :=
  {| cv_width := w; cv_height := h; cv_fill := rgb 255 255 255; cv_ops := [] |}.

End Sample.

Definition field_ok (params : gmap string string) (key : string) : bool :=
  match params !! key with
  | Some "" => false
  | _ => true
  end.

(** The invariant of [CameraParams] on the four displayed keys: a key that
    is present holds a non-empty string. *)
Definition well_formed (params : gmap string string) : bool :=
  forallb (field_ok params) meta_keys.

(** The present fields among focal, fnumber, shutter, iso, in that order. *)
Definition present_fields (params : gmap string string) : list string :=
  omap (fun key => params !! key) meta_keys.

(** A candidate the loop passes over: an empty path or one that does not
    exist. *)
Definition passed_over (W : world) (p : string) : bool :=
  negb (Str.nonempty p && path_exists W p).

(** The path before the extension is settled (source lines 395-396). *)
Definition located (W : world) (out_path : string) : string :=
  if Str.nonempty (Path.dirname out_path) then out_path
  else Path.join (getcwd W) out_path.

(** [round(x)] where it is defined. *)
Definition round_int (x : float) : Z := default 0 (F64.nearest_int x).

(** The exposure-time rule as the specification words it, on a positive
    finite [t]: below one second the fraction [1/denom] with
    [denom = round(1/t)] when [|1/denom - t| < 0.02 * t], else three
    decimals; from one second on the integer when [|t - round(t)| < 0.05],
    else one decimal. *)
Definition exposure_rule (t : float) : string :=
  if F64.ltb t lit_1_0 then
    let denom := round_int (F64.div lit_1_0 t) in
    if F64.ltb (F64.abs (F64.sub (F64.div lit_1_0 (F64.of_Z denom)) t))
               (F64.mul lit_0_02 t)
    then "1/" +:+ pretty denom +:+ "s"
    else F64.to_fixed 3 t +:+ "s"
  else
    if F64.ltb (F64.abs (F64.sub t (F64.of_Z (round_int t)))) lit_0_05
    then pretty (round_int t) +:+ "s"
    else F64.to_fixed 1 t +:+ "s".

(** The band height as the specification words it, [round(r * W)], and as
    a truncation, [int(r * W)]. *)
Definition rounded_band (r : float) (W : Z) : Z :=
  default 0 (F64.nearest_int (F64.mul r (F64.of_Z W))).

Definition truncated_band (r : float) (W : Z) : Z :=
  default 0 (F64.trunc_int (F64.mul r (F64.of_Z W))).

(** Where the composition wrote its lines of text: [(x, y, text)]. *)
Definition text_positions (fr : framed) : list (Z * Z * string) :=
  omap (fun op => match op with
                  | Text x y text _ _ => Some (x, y, text)
                  | _ => None
                  end) (cv_ops (saved_canvas fr)).


(** The value the image holds last under a tag named [name]. *)
Definition last_named (W : world) (raw : list (Z * pyval)) (name : string)
  : option pyval :=
  last (omap (fun '(tag_id, value) =>
                if bool_decide (TAGS W tag_id = Some name) then Some value
                else None) raw).

(** The keys [extract_camera_params] can store. *)
Definition camera_keys : list string :=
  ["brand"; "model"; "lens"; "fnumber"; "shutter"; "iso"].

(** The template keys a composition reads on every path. *)
Definition required_keys : list string :=
  ["border_px"; "bottom_band_ratio"; "bg_color"; "brand_font_size_ratio";
   "meta_font_size_ratio"; "gap_ratio"; "logo_max_height_ratio"; "use_logo";
   "text_color"].

(** A file name made of dots only (or empty). *)
Definition only_dots (s : string) : bool :=
  forallb (fun a => Ascii.eqb a ".") (Str.chars s).

(** * Properties *)

(** ** The error monad *)

Lemma bind_Ok {A B : Type} (m : result A) (k : A -> result B) (b : B) :
  m ≫= k = Ok b <-> exists a, m = Ok a /\ k a = Ok b.
Proof.
  destruct m as [a|e]; simpl; split.
  - intros H. exists a. split; [reflexivity | exact H].
  - intros (a' & Ha & Hk). inversion Ha; subst. exact Hk.
  - discriminate.
  - intros (a' & Ha & _). discriminate.
Qed.

Lemma try_except_returns {A : Type} (body : result A) (handler : exn -> result A) :
  (forall e, returns (handler e)) -> returns (try_except body handler).
Proof.
  intros Hh. destruct body as [a|e]; simpl; [exists a; reflexivity | apply Hh].
Qed.

(** ** Rational normalizer *)

Lemma rational_to_float_normalize (val : pyval) :
  _rational_to_float val = Ok (normalize_spec val).
Proof.
  unfold _rational_to_float, normalize_spec.
  destruct (py_float val) as [x|e] eqn:Hval; [reflexivity|].
  destruct (as_pair val) as [[num den]|]; simpl.
  - destruct (py_float num) as [a|ea]; simpl; [|reflexivity].
    destruct (py_float den) as [b|eb]; simpl; [|reflexivity].
    unfold float_truediv. destruct (F64.is_zero b); reflexivity.
  - reflexivity.
Qed.

Lemma rational_to_float_returns (val : pyval) : returns (_rational_to_float val).
Proof. eexists. apply rational_to_float_normalize. Qed.

(** C6. The rational normalizer never raises.  It returns the float of a
    directly coercible value; for a two-element tuple or list it returns
    numerator divided by denominator, and the fail signal when an element is
    not numeric or the denominator is zero; it returns the fail signal for
    [None] and for values that are not numeric. *)
Theorem rational_to_float_spec (val : pyval) :
  returns (_rational_to_float val)
  /\ _rational_to_float val = Ok (normalize_spec val)
  /\ _rational_to_float VNone = Ok None
  /\ _rational_to_float (VStr "garbage") = Ok None
  /\ _rational_to_float (VTuple [VInt 1; VInt 0]) = Ok None
  /\ _rational_to_float (VTuple [VInt 1; VStr "x"]) = Ok None
  /\ _rational_to_float (VTuple [VInt 1; VInt 4]) = Ok (Some (F64.of_decimal 25 (-2))).
Proof.
  split; [apply rational_to_float_returns|].
  split; [apply rational_to_float_normalize|].
  repeat split; vm_compute; reflexivity.
Qed.

(** What the normalizer does on each shape of input. *)
Lemma rational_to_float_direct (val : pyval) (x : float) :
  py_float val = Ok x -> _rational_to_float val = Ok (Some x).
Proof. intros H. unfold _rational_to_float. rewrite H. reflexivity. Qed.

Lemma rational_to_float_pair (num den : pyval) (a b : float) :
  py_float num = Ok a -> py_float den = Ok b -> F64.is_zero b = false ->
  _rational_to_float (VTuple [num; den]) = Ok (Some (F64.div a b))
  /\ _rational_to_float (VList [num; den]) = Ok (Some (F64.div a b)).
Proof.
  intros Ha Hb Hz. unfold _rational_to_float. simpl.
  rewrite Ha, Hb. simpl. unfold float_truediv. rewrite Hz. split; reflexivity.
Qed.

Lemma rational_to_float_zero_den (num den : pyval) (b : float) :
  py_float den = Ok b -> F64.is_zero b = true ->
  _rational_to_float (VTuple [num; den]) = Ok None.
Proof.
  intros Hb Hz. unfold _rational_to_float. simpl.
  destruct (py_float num); simpl; [|reflexivity].
  rewrite Hb. simpl. unfold float_truediv. rewrite Hz. reflexivity.
Qed.

(** ** Sign tests on floats *)

Lemma positive_not_le_zero (x : float) :
  F64.ltb F64.zero x = true -> F64.leb x F64.zero = false.
Proof.
  unfold F64.ltb, F64.leb, SFltb, SFleb.
  destruct x as [s|s| |s m e]; try destruct s; simpl; congruence.
Qed.

Lemma positive_shape (x : float) :
  F64.ltb F64.zero x = true ->
  x = S754_infinity false \/ exists m e, x = S754_finite false m e.
Proof.
  unfold F64.ltb, SFltb.
  destruct x as [s|s| |s m e]; try destruct s; simpl; try discriminate; eauto.
Qed.

(** ** Focal length *)

(** C1. Whenever the raw value normalizes to a positive float, the
    focal-length formatter stops in the return statement with a
    [NameError]: it renders no string, neither "50mm" nor "35.5mm". *)
Theorem format_focal_positive_raises (val : pyval) (v : float) :
  _rational_to_float val = Ok (Some v) ->
  F64.ltb F64.zero v = true ->
  _format_focal val = Raise (NameError "f").
Proof.
  intros Hn Hpos. unfold _format_focal. rewrite Hn. simpl.
  rewrite (positive_not_le_zero _ Hpos). reflexivity.
Qed.

Lemma format_focal_positive_raises_witness :
  _rational_to_float (flt 50 0) = Ok (Some (F64.of_decimal 50 0))
  /\ F64.ltb F64.zero (F64.of_decimal 50 0) = true
  /\ _format_focal (flt 50 0) = Raise (NameError "f").
Proof.
  split; [reflexivity|]. split; [reflexivity|].
  apply (format_focal_positive_raises (flt 50 0) (F64.of_decimal 50 0));
    reflexivity.
Defined.

Example format_focal_35_5 : _format_focal (flt 355 (-1)) = Raise (NameError "f").
Proof. reflexivity. Qed.

(** With the right local the text would still keep its zero: the strips
    are applied after "mm" is appended. *)
Example focal_text_keeps_zero :
  Str.rstrip "." (Str.rstrip "0" (F64.to_fixed 1 (F64.of_decimal 50 0) +:+ "mm"))
  = "50.0mm".
Proof. vm_compute. reflexivity. Qed.

(** The formatter returns only on the failure paths. *)
Lemma format_focal_returns_only_none (val : pyval) (r : option string) :
  _format_focal val = Ok r -> r = None.
Proof.
  unfold _format_focal.
  destruct (_rational_to_float val) as [[x|]|]; simpl; try congruence.
  destruct (F64.leb x F64.zero); simpl; congruence.
Qed.

(** ** Totality of the formatters *)

(** C2. Two of the four formatters raise: the focal-length formatter on
    every positive value, the exposure-time formatter on a NaN (a rational
    with denominator zero) and on an infinity. *)
Theorem formatters_raise :
  _format_focal (flt 50 0) = Raise (NameError "f")
  /\ _format_exposure_time (VRational 1 0) = Raise ValueError
  /\ _format_exposure_time (VFloat F64.nan) = Raise ValueError
  /\ _format_exposure_time (VFloat F64.infinity) = Raise OverflowError.
Proof. repeat split; vm_compute; reflexivity. Qed.

(** The exposure-time formatter raises on every value that normalizes to a
    NaN. *)
Lemma format_exposure_time_nan (val : pyval) :
  _rational_to_float val = Ok (Some S754_nan) ->
  _format_exposure_time val = Raise ValueError.
Proof. intros H. unfold _format_exposure_time. rewrite H. reflexivity. Qed.

Lemma rstrip_keeps_head (c a : ascii) (s : string) :
  a <> c -> exists s', Str.rstrip c (String a s) = String a s'.
Proof.
  intros Hne. simpl. destruct (Str.rstrip c s).
  - destruct (Ascii.eqb_spec a c); [contradiction|]. eauto.
  - eauto.
Qed.

Lemma fnumber_text_nonempty (digits : string) :
  Str.rstrip "." (Str.rstrip "0" ("F" +:+ digits)) <> "".
Proof.
  change ("F" +:+ digits) with (String "F" digits).
  destruct (rstrip_keeps_head "0" "F" digits) as [s1 ->]; [discriminate|].
  destruct (rstrip_keeps_head "." "F" s1) as [s2 ->]; [discriminate|].
  discriminate.
Qed.

(** The f-number formatter is total and never returns the empty string. *)
Lemma format_fnumber_total (val : pyval) :
  exists r, _format_fnumber val = Ok r /\ r <> Some "".
Proof.
  unfold _format_fnumber.
  destruct (rational_to_float_returns val) as [[x|] ->];
    cbn [mbind result_bind rbind].
  - destruct (F64.leb x F64.zero).
    + eexists; split; [reflexivity | discriminate].
    + eexists; split; [reflexivity|].
      intros [= H]. exact (fnumber_text_nonempty _ H).
  - eexists; split; [reflexivity | discriminate].
Qed.

(** The ISO block is total by construction and never yields the empty
    string. *)
Lemma iso_string_nonempty (W : world) (iso : pyval) :
  iso_string W iso <> Some "".
Proof.
  unfold iso_string.
  match goal with
  | |- context [@mbind result _ _ _ _ ?m] => destruct m as [v|e]
  end; cbn [mbind result_bind rbind try_except].
  - intros [= H].
  - discriminate.
Qed.

(** ** Metadata line *)

Lemma join_nonempty (sep : string) (pieces : list string) :
  pieces <> [] -> Forall (fun s => s <> "") pieces -> Str.join sep pieces <> "".
Proof.
  intros Hne Hall. destruct pieces as [|p rest]; [contradiction|].
  apply Forall_cons in Hall as [Hp _].
  destruct p as [|a s]; [contradiction|].
  destruct rest; simpl; discriminate.
Qed.

Lemma nonempty_true (s : string) : Str.nonempty s = true -> s <> "".
Proof. destruct s; [discriminate | discriminate]. Qed.

Lemma meta_pieces_snoc (params : gmap string string) (keys : list string) (acc : list string) :
  Forall (fun s => s <> "") acc ->
  Forall (fun s => s <> "")
    (foldl (fun pieces key =>
              match params !! key with
              | Some v => if Str.nonempty v then pieces ++ [v] else pieces
              | None => pieces
              end) acc keys).
Proof.
  revert acc. induction keys as [|key keys IH]; intros acc Hacc; simpl; [exact Hacc|].
  apply IH. destruct (params !! key) as [v|]; [|exact Hacc].
  destruct (Str.nonempty v) eqn:Hv; [|exact Hacc].
  apply Forall_app. split; [exact Hacc|].
  constructor; [apply nonempty_true, Hv | constructor].
Qed.

Lemma meta_pieces_nonempty (params : gmap string string) :
  Forall (fun s => s <> "") (meta_pieces params).
Proof. apply meta_pieces_snoc. constructor. Qed.

(** The line is never empty, whatever the dictionary holds. *)
Lemma meta_line_never_empty (params : gmap string string) :
  meta_line_of params <> "".
Proof.
  unfold meta_line_of.
  pose proof (meta_pieces_nonempty params) as Hall.
  destruct (meta_pieces params) as [|p rest] eqn:Hp; [discriminate|].
  apply join_nonempty; [discriminate | exact Hall].
Qed.

Lemma meta_pieces_present (params : gmap string string) :
  well_formed params = true -> meta_pieces params = present_fields params.
Proof.
  unfold well_formed, field_ok, meta_pieces, present_fields, meta_keys. simpl.
  destruct (params !! "focal") as [[|a1 s1]|]; simpl; try discriminate;
    destruct (params !! "fnumber") as [[|a2 s2]|]; simpl; try discriminate;
    destruct (params !! "shutter") as [[|a3 s3]|]; simpl; try discriminate;
    destruct (params !! "iso") as [[|a4 s4]|]; simpl; try discriminate;
    reflexivity.
Qed.

(** C5. For every [CameraParams] dictionary the metadata line is made of
    exactly the present fields among focal, fnumber, shutter, iso, in that
    order, joined by two spaces; it is the sentinel "No EXIF Data" when all
    four are absent; it is never the empty string. *)
Theorem meta_line_spec (params : gmap string string) :
  well_formed params = true ->
  meta_line_of params =
    match present_fields params with
    | [] => "No EXIF Data"
    | fields => Str.join "  " fields
    end
  /\ ((forall key, key ∈ meta_keys -> params !! key = None) ->
      meta_line_of params = "No EXIF Data")
  /\ meta_line_of params <> "".
Proof.
  intros Hwf. split; [|split].
  - unfold meta_line_of. rewrite (meta_pieces_present _ Hwf). reflexivity.
  - intros Habsent. unfold meta_line_of. rewrite (meta_pieces_present _ Hwf).
    unfold present_fields, meta_keys. simpl.
    rewrite !Habsent by (unfold meta_keys; repeat constructor). reflexivity.
  - apply meta_line_never_empty.
Qed.

Lemma meta_line_spec_witness :
  let params : gmap string string := <["focal" := "50mm"]> (<["iso" := "ISO100"]> ∅) in
  well_formed params = true /\ meta_line_of params = "50mm  ISO100".
Proof.
  split; [reflexivity|].
  destruct (meta_line_spec (<["focal" := "50mm"]> (<["iso" := "ISO100"]> ∅)))
    as [H _]; [reflexivity|].
  rewrite H. reflexivity.
Defined.

Example meta_line_no_params : meta_line_of ∅ = "No EXIF Data".
Proof. reflexivity. Qed.

(** What [extract_camera_params] builds satisfies the invariant. *)
Lemma field_ok_insert (key v : string) (out : gmap string string) (k : string) :
  v <> "" -> field_ok out k = true -> field_ok (<[key := v]> out) k = true.
Proof.
  intros Hv Hk. unfold field_ok. rewrite lookup_insert.
  case_decide; [|exact Hk]. destruct v; [contradiction | reflexivity].
Qed.

Lemma put_well_formed (key : string) (s : option string) (out : gmap string string) :
  well_formed out = true -> well_formed (put key s out) = true.
Proof.
  unfold put. destruct s as [v|]; [|tauto].
  destruct (Str.nonempty v) eqn:Hv; [|tauto].
  unfold well_formed. rewrite !List.forallb_forall.
  intros H k Hk. apply (field_ok_insert key v out k (nonempty_true _ Hv)), H, Hk.
Qed.

Lemma well_formed_insert_other (key v : string) (out : gmap string string) :
  bool_decide (key ∈ meta_keys) = false ->
  well_formed (<[key := v]> out) = well_formed out.
Proof.
  intros Hkey%bool_decide_eq_false. unfold well_formed, field_ok, meta_keys in *. simpl.
  rewrite !lookup_insert_ne by (intros ->; apply Hkey; repeat constructor).
  reflexivity.
Qed.

Lemma extract_camera_params_well_formed (W : world) (img : image) (params : gmap string string) :
  extract_camera_params W img = Ok params -> well_formed params = true.
Proof.
  unfold extract_camera_params.
  destruct (if_not_none _format_focal _) as [focal_s|]; [|discriminate].
  destruct (if_not_none _format_fnumber _) as [fnum_s|]; [|discriminate].
  destruct (if_not_none _format_exposure_time _) as [shutter_s|]; [|discriminate].
  cbn [mbind result_bind rbind]. intros [= <-].
  repeat apply put_well_formed.
  repeat match goal with
         | |- context [if ?b then _ else _] => destruct b
         end;
    rewrite ?well_formed_insert_other by reflexivity;
    reflexivity.
Qed.

(** ** Font resolution *)

Lemma load_font_skip (W : world) (skip rest : list string) (size : Z) :
  forallb (passed_over W) skip = true ->
  load_font W (skip ++ rest) size = load_font W rest size.
Proof.
  induction skip as [|p skip IH]; simpl; [reflexivity|].
  intros [Hp Hskip]%andb_true_iff. unfold passed_over in Hp.
  apply negb_true_iff in Hp. rewrite Hp. apply IH, Hskip.
Qed.

(** X9. With no failing candidate in front, the first candidate that
    exists and loads is returned, whatever follows it in the list. *)
Lemma load_font_first_loadable (W : world) (skip rest : list string) (p : string) (size : Z) :
  forallb (passed_over W) skip = true ->
  Str.nonempty p = true -> path_exists W p = true ->
  font_error W p size = None ->
  load_font W (skip ++ p :: rest) size = Ok (TrueType p size).
Proof.
  intros Hskip Hp Hex Hload. rewrite (load_font_skip _ _ _ _ Hskip). simpl.
  rewrite Hp, Hex. unfold truetype. rewrite Hload. reflexivity.
Qed.

Lemma load_font_default (W : world) (paths : list string) (size : Z) :
  forallb (passed_over W) paths = true ->
  load_font W paths size = Ok DefaultFont.
Proof.
  intros H. rewrite <- (app_nil_r paths). rewrite (load_font_skip _ _ _ _ H).
  reflexivity.
Qed.

(** C7. When the first candidate that exists fails to load, font
    resolution raises a [NameError] from its handler: the failure is fatal,
    the remaining candidates are not tried and the default face is not
    returned. *)
Theorem load_font_failed_candidate_raises (W : world) (skip rest : list string)
    (p : string) (size : Z) (e : exn) :
  forallb (passed_over W) skip = true ->
  Str.nonempty p = true -> path_exists W p = true ->
  font_error W p size = Some e ->
  load_font W (skip ++ p :: rest) size = Raise (NameError "path").
Proof.
  intros Hskip Hp Hex Hload. rewrite (load_font_skip _ _ _ _ Hskip). simpl.
  rewrite Hp, Hex. unfold truetype. rewrite Hload. reflexivity.
Qed.

Lemma load_font_failed_candidate_raises_witness :
  let W := Sample.world_of [] in
  font_error W "broken.ttf" 27 = Some OSError
  /\ load_font W ["broken.ttf"; Sample.dejavu] 27 = Raise (NameError "path")
  /\ load_font W [Sample.dejavu] 27 = Ok (TrueType Sample.dejavu 27).
Proof.
  split; [reflexivity|]. split; [|reflexivity].
  apply (load_font_failed_candidate_raises (Sample.world_of []) []
           [Sample.dejavu] "broken.ttf" 27 OSError); reflexivity.
Defined.

(** ** Logo placement *)

Lemma paste_logo_undecodable (W : world) (cv : canvas) (logo_path : string)
    (max_height y : Z) (e : exn) :
  open_rgba W logo_path = Raise e ->
  paste_logo_center W cv logo_path max_height y = Ok (cv, (y, 0)).
Proof. intros H. unfold paste_logo_center. rewrite H. reflexivity. Qed.

(** A logo no taller than the limit is pasted unscaled and centered; the
    cursor moves down by its height. *)
Lemma paste_logo_fits (W : world) (cv : canvas) (logo_path : string)
    (max_height y : Z) (logo : image) :
  open_rgba W logo_path = Ok logo ->
  (img_size logo).2 <= max_height ->
  paste_logo_center W cv logo_path max_height y =
    Ok (draw (AlphaComposite logo ((cv_width cv - (img_size logo).1) `div` 2) y) cv,
        (y + (img_size logo).2, (img_size logo).2)).
Proof.
  intros Hopen Hh. unfold paste_logo_center. rewrite Hopen.
  destruct (img_size logo) as [w h]. simpl in *.
  destruct (Z.ltb_spec max_height h); [lia|]. reflexivity.
Qed.

(** C8. A logo that decodes and is taller than [logo_max_height] is not
    scaled down and placed: logo placement raises. *)
Theorem paste_logo_tall_raises (W : world) (cv : canvas) (logo_path : string)
    (max_height y : Z) (logo : image) :
  open_rgba W logo_path = Ok logo ->
  max_height < (img_size logo).2 ->
  raises (paste_logo_center W cv logo_path max_height y).
Proof.
  intros Hopen Hh. unfold paste_logo_center. rewrite Hopen.
  destruct (img_size logo) as [w h]. simpl in *.
  destruct (Z.ltb_spec max_height h); [|lia].
  repeat match goal with
         | |- raises (Raise _) => eexists; reflexivity
         | |- raises (Raise _ ≫= _) => eexists; reflexivity
         | |- raises ((?m ≫= _) ≫= _) =>
             destruct m; cbn [mbind result_bind rbind]
         end.
Qed.

Lemma paste_logo_tall_raises_witness :
  let W := Sample.world_of [] in
  open_rgba W "logo.png" = Ok Sample.logo
  /\ 83 < (img_size Sample.logo).2
  /\ raises (paste_logo_center W (Sample.blank 1043 920) "logo.png" 83 724)
  /\ paste_logo_center W (Sample.blank 1043 920) "logo.png" 83 724 = Raise TypeError.
Proof.
  split; [reflexivity|]. split; [reflexivity|]. split; [|reflexivity].
  apply (paste_logo_tall_raises (Sample.world_of []) (Sample.blank 1043 920)
           "logo.png" 83 724 Sample.logo); reflexivity.
Defined.

Example paste_logo_small :
  paste_logo_center (Sample.world_of []) (Sample.blank 1043 920) "small.png" 83 724
  = Ok (draw (AlphaComposite Sample.small_logo 461 724) (Sample.blank 1043 920),
        (784, 60)).
Proof. reflexivity. Qed.

Example paste_logo_corrupt :
  paste_logo_center (Sample.world_of []) (Sample.blank 1043 920) "corrupt.png" 83 724
  = Ok (Sample.blank 1043 920, (724, 0)).
Proof. reflexivity. Qed.

(** In a composition the cursor moves on by half the gap after a logo, also
    after one that could not be decoded: the text then sits half a gap lower
    than without a logo. *)
Example logo_cursor_advance :
  let W := Sample.world_of Sample.exif_no_focal in
  let src := Sample.photo Sample.exif_no_focal in
  text_positions <$> compose W Nikon_like src "out" None default_fonts
  = Ok [(496, 724, "Nikon"); (421, 759, "F1.8  1/100s  ISO100")]
  /\ text_positions <$> compose W Nikon_like src "out" (Some "small.png") default_fonts
     = Ok [(496, 791, "Nikon"); (421, 826, "F1.8  1/100s  ISO100")]
  /\ text_positions <$> compose W Nikon_like src "out" (Some "corrupt.png") default_fonts
     = Ok [(496, 731, "Nikon"); (421, 766, "F1.8  1/100s  ISO100")].
Proof. repeat split; vm_compute; reflexivity. Qed.

(** ** Output path *)

Lemma chars_app (a b : string) : Str.chars (a +:+ b) = Str.chars a ++ Str.chars b.
Proof.
  unfold Str.chars. induction a as [|c a IH]; [reflexivity|].
  change (String c a +:+ b) with (String c (a +:+ b)). simpl. rewrite IH.
  reflexivity.
Qed.

Lemma append_assoc (a b c : string) : (a +:+ b) +:+ c = a +:+ b +:+ c.
Proof.
  induction a as [|x a IH]; [reflexivity|].
  change (String x a +:+ b) with (String x (a +:+ b)).
  change (String x (a +:+ b) +:+ c) with (String x ((a +:+ b) +:+ c)).
  rewrite IH. reflexivity.
Qed.

Lemma chars_lower (s : string) :
  Str.chars (Str.lower s) = map Str.lower_char (Str.chars s).
Proof.
  unfold Str.chars. induction s as [|c s IH]; [reflexivity|].
  simpl. rewrite IH. reflexivity.
Qed.

(** A suffix no longer than [b] is a suffix of [a ++ b] exactly when it is
    one of [b]. *)
Lemma suffix_app_long {A : Type} (suf a b : list A) :
  (length suf <= length b)%nat ->
  suf `suffix_of` (a ++ b) <-> suf `suffix_of` b.
Proof.
  intros Hlen. split.
  - intros [k Hk]. apply List.app_eq_app in Hk as [l [[-> Hs]|[-> Hb]]].
    + assert (l = []) as ->.
      { apply (f_equal length) in Hs. rewrite length_app in Hs.
        destruct l; [reflexivity | simpl in Hs; lia]. }
      simpl in Hs. subst. reflexivity.
    + exists l. exact Hb.
  - intros [k ->]. exists (a ++ k). rewrite app_assoc. reflexivity.
Qed.

(** A suffix longer than [b] reaches into [a] and contains its last
    element. *)
Lemma suffix_app_short {A : Type} (suf a b : list A) (x : A) :
  (length b < length suf)%nat ->
  suf `suffix_of` ((a ++ [x]) ++ b) -> x ∈ suf.
Proof.
  intros Hlen [k Hk]. apply List.app_eq_app in Hk as [l [[Ha Hs]|[-> Hb]]].
  - destruct (decide (l = [])) as [->|Hl].
    + simpl in Hs. subst. lia.
    + destruct (exists_last Hl) as (l' & y & ->).
      rewrite app_assoc in Ha. apply app_inj_tail in Ha as [_ ->].
      rewrite Hs. set_solver.
  - apply (f_equal length) in Hb. rewrite length_app in Hb. lia.
Qed.

Lemma endswith_jpg_under_prefix (pre p : string) :
  pre = "" \/ (exists pre', Str.chars pre = pre' ++ ["/"%char]) ->
  Str.endswith (Str.lower (pre +:+ p)) ".jpg" = Str.endswith (Str.lower p) ".jpg".
Proof.
  intros [->|[pre' Hpre]]; [reflexivity|].
  unfold Str.endswith. apply bool_decide_ext.
  rewrite chars_lower, chars_app, map_app, Hpre, map_app, <- chars_lower.
  change (map Str.lower_char ["/"%char]) with ["/"%char].
  destruct (le_lt_dec (length (Str.chars ".jpg")) (length (Str.chars (Str.lower p))))
    as [Hlong|Hshort].
  - apply suffix_app_long, Hlong.
  - split.
    + intros Hsuf. apply suffix_app_short in Hsuf; [|exact Hshort].
      exfalso. revert Hsuf. cbv [Str.chars String.list_ascii_of_string].
      rewrite !elem_of_cons, elem_of_nil. intros [H|[H|[H|[H|[]]]]]; discriminate H.
    + intros [k Hk]. apply (f_equal length) in Hk. rewrite length_app in Hk. lia.
Qed.

Lemma join_shape (cwd p : string) :
  exists pre, Path.join cwd p = pre +:+ p
              /\ (pre = "" \/ exists pre', Str.chars pre = pre' ++ ["/"%char]).
Proof.
  unfold Path.join. destruct (Str.startswith p "/").
  { exists "". split; [reflexivity | left; reflexivity]. }
  destruct cwd as [|c cwd]; simpl negb.
  { exists "". split; [reflexivity | left; reflexivity]. }
  simpl orb. destruct (Str.endswith (String c cwd) "/") eqn:Hend.
  - exists (String c cwd). split; [reflexivity|]. right.
    unfold Str.endswith in Hend. apply bool_decide_eq_true in Hend as [k Hk].
    exists k. exact Hk.
  - exists (String c cwd +:+ "/"). split.
    + rewrite append_assoc. reflexivity.
    + right. exists (Str.chars (String c cwd)). apply chars_app.
Qed.

(** The extension test looks at the caller's path alone. *)
Lemma output_path_extension (W : world) (out_path : string) :
  output_path W out_path =
    if Str.endswith (Str.lower out_path) ".jpg" then located W out_path
    else located W out_path +:+ ".jpg".
Proof.
  unfold output_path, located.
  destruct (Str.nonempty (Path.dirname out_path)); [reflexivity|].
  destruct (join_shape (getcwd W) out_path) as (pre & -> & Hpre).
  rewrite (endswith_jpg_under_prefix _ _ Hpre). reflexivity.
Qed.

Example output_path_png :
  output_path (Sample.world_of []) "photo.png" = "/home/user/photo.png.jpg"
  /\ output_path (Sample.world_of []) "out/photo.png" = "out/photo.png.jpg".
Proof. split; reflexivity. Qed.

Example output_path_upper_jpg :
  output_path (Sample.world_of []) "out/photo.JPG" = "out/photo.JPG"
  /\ output_path (Sample.world_of []) "photo.jpg" = "/home/user/photo.jpg".
Proof. split; reflexivity. Qed.
(** ** Binary64 arithmetic

    Bounds on the rounding of the standard library's [SpecFloat], enough to
    tell when the conversions and products of the source stay finite. *)

Module F64Facts.
Import F64.

Ltac hide_pows :=
  repeat match goal with
         | |- context [Z.pow ?a ?b] =>
             let x := fresh "pw" in set (x := Z.pow a b) in *; clearbody x
         | H : context [Z.pow ?a ?b] |- _ =>
             let x := fresh "pw" in set (x := Z.pow a b) in *; clearbody x
         end.

Ltac plia := hide_pows; lia.

Lemma fexp_eq (x : Z) : fexp prec emax x = Z.max (x - 53) (-1074).
Proof. reflexivity. Qed.

Lemma digits2_pos_bounds (p : positive) :
  2 ^ (Z.pos (digits2_pos p) - 1) <= Z.pos p < 2 ^ Z.pos (digits2_pos p).
Proof.
  induction p as [p IH|p IH|]; simpl digits2_pos.
  - rewrite Pos2Z.inj_succ, Pos2Z.inj_xI.
    replace (Z.succ (Z.pos (digits2_pos p)) - 1) with (Z.succ (Z.pos (digits2_pos p) - 1)) by lia.
    rewrite !Z.pow_succ_r by lia. plia.
  - rewrite Pos2Z.inj_succ. change (Z.pos p~0) with (2 * Z.pos p).
    replace (Z.succ (Z.pos (digits2_pos p)) - 1) with (Z.succ (Z.pos (digits2_pos p) - 1)) by lia.
    rewrite !Z.pow_succ_r by lia. plia.
  - simpl. lia.
Qed.

Lemma digits_nonneg (z : Z) : 0 <= Zdigits2 z.
Proof. destruct z; simpl; lia. Qed.

Lemma digits_pos (z : Z) : 0 < z -> 0 < Zdigits2 z.
Proof. destruct z; simpl; lia. Qed.

Lemma digits_upper (z : Z) : 0 <= z -> z < 2 ^ Zdigits2 z.
Proof.
  destruct z as [|p|p]; simpl; [lia| |lia]. intros _. apply digits2_pos_bounds.
Qed.

Lemma digits_lower (z : Z) : 0 < z -> 2 ^ (Zdigits2 z - 1) <= z.
Proof.
  destruct z as [|p|p]; simpl; [lia| |lia]. intros _. apply digits2_pos_bounds.
Qed.

(** [z < 2^k] bounds the number of digits by [k]. *)
Lemma digits_le (z k : Z) : 0 <= z < 2 ^ k -> 0 <= k -> Zdigits2 z <= k.
Proof.
  intros [Hz Hlt] Hk. destruct (Z.eq_dec z 0) as [->|Hne]; [simpl; lia|].
  pose proof (digits_lower z ltac:(lia)) as Hlow.
  pose proof (digits_pos z ltac:(lia)) as Hpos.
  destruct (Z_lt_le_dec k (Zdigits2 z)) as [Hgt|]; [|lia].
  exfalso. assert (2 ^ k <= 2 ^ (Zdigits2 z - 1)) by (apply Z.pow_le_mono_r; lia).
  lia.
Qed.

Lemma digits_mono (a b : Z) : 0 <= a <= b -> Zdigits2 a <= Zdigits2 b.
Proof.
  intros [Ha Hab]. apply digits_le; [|apply digits_nonneg].
  pose proof (digits_upper b ltac:(lia)). lia.
Qed.

Lemma digits_succ (z : Z) : 0 <= z -> Zdigits2 (z + 1) <= Zdigits2 z + 1.
Proof.
  intros Hz. pose proof (digits_upper z Hz) as Hup. pose proof (digits_nonneg z).
  apply digits_le; [|lia]. rewrite Z.pow_add_r by lia. lia.
Qed.


Lemma digits_mul_pow2 (a k : Z) : 0 < a -> 0 <= k -> Zdigits2 (a * 2 ^ k) = Zdigits2 a + k.
Proof.
  intros Ha Hk. pose proof (digits_upper a ltac:(lia)). pose proof (digits_lower a Ha).
  pose proof (digits_pos a Ha).
  assert (0 < 2 ^ k) by (apply Z.pow_pos_nonneg; lia).
  apply Z.le_antisymm.
  - apply digits_le; [|lia]. rewrite Z.pow_add_r by lia. nia.
  - destruct (Z_lt_le_dec (Zdigits2 (a * 2 ^ k)) (Zdigits2 a + k)) as [Hlt|]; [|lia].
    exfalso. pose proof (digits_upper (a * 2 ^ k) ltac:(nia)) as Hup.
    assert (2 ^ Zdigits2 (a * 2 ^ k) <= 2 ^ (Zdigits2 a - 1 + k)).
    { apply Z.pow_le_mono_r; lia. }
    rewrite Z.pow_add_r in * by lia. nia.
Qed.

Lemma digits_div_pow2 (m k : Z) :
  0 <= m -> 0 <= k -> Zdigits2 (m / 2 ^ k) <= Z.max (Zdigits2 m - k) 0.
Proof.
  intros Hm Hk. pose proof (digits_upper m Hm) as Hup. pose proof (digits_nonneg m).
  assert (0 < 2 ^ k) by (apply Z.pow_pos_nonneg; lia).
  apply digits_le; [|lia]. split; [apply Z.div_pos; lia|].
  apply Z.div_lt_upper_bound; [lia|].
  destruct (Z_le_gt_dec k (Zdigits2 m)).
  - rewrite Z.max_l by lia. rewrite <- Z.pow_add_r by lia.
    replace (k + (Zdigits2 m - k)) with (Zdigits2 m) by lia. exact Hup.
  - rewrite Z.max_r by lia. simpl.
    assert (2 ^ Zdigits2 m <= 2 ^ k) by (apply Z.pow_le_mono_r; lia). lia.
Qed.

(** *** Right shifts *)

Lemma shr_1_m (r : shr_record) : 0 <= shr_m r -> shr_m (shr_1 r) = shr_m r / 2.
Proof.
  destruct r as [m b s]. cbn [shr_m]. intros Hm.
  destruct m as [|[p|p|]|p]; cbn [shr_1 shr_m]; try lia.
  - reflexivity.
  - rewrite Pos2Z.inj_xI. apply Z.div_unique with 1; lia.
  - change (Z.pos p~0) with (2 * Z.pos p). apply Z.div_unique with 0; lia.
  - reflexivity.
Qed.

Lemma iter_shr_1_m (p : positive) (r : shr_record) :
  0 <= shr_m r -> shr_m (SpecFloat.iter_pos shr_1 p r) = shr_m r / 2 ^ Z.pos p.
Proof.
  revert r. induction p as [p IH|p IH|]; intros r Hr; simpl SpecFloat.iter_pos.
  - assert (H1 : 0 <= shr_m (shr_1 r)) by (rewrite shr_1_m by lia; apply Z.div_pos; lia).
    assert (0 < 2 ^ Z.pos p) by (apply Z.pow_pos_nonneg; lia).
    assert (H2 : 0 <= shr_m (SpecFloat.iter_pos shr_1 p (shr_1 r))).
    { rewrite IH by lia. apply Z.div_pos; lia. }
    rewrite IH, IH, shr_1_m by lia.
    rewrite !Z.div_div by lia. f_equal.
    rewrite Pos2Z.inj_xI.
    replace (2 * Z.pos p + 1) with (1 + Z.pos p + Z.pos p) by lia.
    rewrite !Z.pow_add_r by lia. change (2 ^ 1) with 2. ring.
  - assert (0 < 2 ^ Z.pos p) by (apply Z.pow_pos_nonneg; lia).
    assert (H2 : 0 <= shr_m (SpecFloat.iter_pos shr_1 p r)).
    { rewrite IH by lia. apply Z.div_pos; lia. }
    rewrite IH, IH by lia. rewrite Z.div_div by lia. f_equal.
    change (Z.pos p~0) with (2 * Z.pos p).
    replace (2 * Z.pos p) with (Z.pos p + Z.pos p) by lia.
    rewrite Z.pow_add_r by lia. ring.
  - apply shr_1_m, Hr.
Qed.

Lemma shr_record_of_loc_m (m : Z) (l : location) : shr_m (shr_record_of_loc m l) = m.
Proof. destruct l as [|[]]; reflexivity. Qed.

(** [shr_fexp] divides the mantissa by the power of two that brings the
    exponent up to the format's. *)
Lemma shr_fexp_spec (m e : Z) (l : location) :
  0 <= m ->
  let e' := Z.max e (fexp prec emax (Zdigits2 m + e)) in
  snd (shr_fexp prec emax m e l) = e'
  /\ shr_m (fst (shr_fexp prec emax m e l)) = m / 2 ^ (e' - e).
Proof.
  intros Hm e'. unfold shr_fexp, shr.
  destruct (fexp prec emax (Zdigits2 m + e) - e) as [|p|p] eqn:Hn; simpl.
  - subst e'. rewrite Z.max_l by lia. rewrite Z.sub_diag, Z.div_1_r, shr_record_of_loc_m.
    split; [reflexivity | reflexivity].
  - subst e'. rewrite Z.max_r by lia.
    rewrite iter_shr_1_m by (rewrite shr_record_of_loc_m; lia).
    rewrite shr_record_of_loc_m. split; [lia|]. f_equal. f_equal. lia.
  - subst e'. rewrite Z.max_l by lia. rewrite Z.sub_diag, Z.div_1_r, shr_record_of_loc_m.
    split; reflexivity.
Qed.

Lemma rne_bounds (m : Z) (l : location) :
  m <= round_nearest_even m l <= m + 1.
Proof. destruct l as [|[]]; simpl; try destruct (Z.even m); lia. Qed.

(** *** Rounding to the format *)

(** The outcomes of [binary_round_aux] on a non-negative mantissa: a zero,
    an overflow, or a finite float with at most 53 digits whose magnitude is
    bounded by the input's. *)
Lemma round_aux_cases (s : bool) (mx ex : Z) (lx : location) :
  0 <= mx ->
  let r := binary_round_aux prec emax s mx ex lx in
  r = S754_zero s
  \/ (r = S754_infinity s /\ (971 < ex \/ 1023 < Zdigits2 mx + ex))
  \/ (exists m e, r = S754_finite s m e
                  /\ Zdigits2 (Z.pos m) <= 53 /\ e <= 971
                  /\ Zdigits2 (Z.pos m) + e <= Z.max (Zdigits2 mx + ex) (-1074) + 1).
Proof.
  intros Hmx r. subst r. unfold binary_round_aux.
  pose proof (shr_fexp_spec mx ex lx Hmx) as [He1 Hm1]. cbv zeta in He1, Hm1.
  destruct (shr_fexp prec emax mx ex lx) as [r1 e1]. cbn [fst snd] in He1, Hm1.
  rewrite <- He1 in Hm1.
  pose proof (rne_bounds (shr_m r1) (loc_of_shr_record r1)) as Hrne.
  set (m1 := round_nearest_even (shr_m r1) (loc_of_shr_record r1)) in *.
  assert (Hk1 : 0 <= e1 - ex) by lia.
  assert (Hp1 : 0 < 2 ^ (e1 - ex)) by (apply Z.pow_pos_nonneg; lia).
  assert (Hr1 : 0 <= shr_m r1) by (rewrite Hm1; apply Z.div_pos; lia).
  pose proof (digits_div_pow2 mx (e1 - ex) Hmx Hk1) as Hd1. rewrite <- Hm1 in Hd1.
  assert (Hdm1 : Zdigits2 m1 <= Zdigits2 (shr_m r1) + 1).
  { etransitivity; [apply (digits_mono m1 (shr_m r1 + 1)); lia | apply digits_succ, Hr1]. }
  pose proof (shr_fexp_spec m1 e1 loc_Exact ltac:(lia)) as [He2 Hm2]. cbv zeta in He2, Hm2.
  destruct (shr_fexp prec emax m1 e1 loc_Exact) as [r2 e2]. cbn [fst snd] in He2, Hm2.
  rewrite <- He2 in Hm2.
  assert (Hk2 : 0 <= e2 - e1) by lia.
  assert (Hp2 : 0 < 2 ^ (e2 - e1)) by (apply Z.pow_pos_nonneg; lia).
  assert (Hr2 : 0 <= shr_m r2) by (rewrite Hm2; apply Z.div_pos; lia).
  pose proof (digits_div_pow2 m1 (e2 - e1) ltac:(lia) Hk2) as Hd2. rewrite <- Hm2 in Hd2.
  pose proof (digits_nonneg mx) as Hdx.
  rewrite fexp_eq in He1, He2.
  destruct (shr_m r2) as [|m|m] eqn:Hsm; [left; reflexivity | | lia].
  right. assert (Hdm : 0 < Zdigits2 (Z.pos m)) by (apply digits_pos; lia).
  destruct (Z.leb_spec e2 (emax - prec)) as [Hle|Hgt]; unfold emax, prec in *.
  - right. exists m, e2. split; [reflexivity|]. clear Hm1 Hm2 Hp1 Hp2. lia.
  - left. split; [reflexivity|]. clear Hm1 Hm2 Hp1 Hp2. lia.
Qed.

Lemma shr_fexp_pos (m e : Z) (l : location) :
  0 < m -> -1074 <= e ->
  0 < shr_m (fst (shr_fexp prec emax m e l)) /\ -1074 <= snd (shr_fexp prec emax m e l).
Proof.
  intros Hm He. pose proof (shr_fexp_spec m e l ltac:(lia)) as [He1 Hm1].
  cbv zeta in He1, Hm1. rewrite fexp_eq in *.
  pose proof (digits_pos m Hm) as Hd.
  split; [|lia]. pose proof (digits_lower m Hm) as Hlow.
  rewrite <- He1 in Hm1. rewrite Hm1.
  set (k := snd (shr_fexp prec emax m e l) - e) in *.
  assert (Hk : 0 <= k <= Zdigits2 m - 1) by lia.
  assert (Hp : 0 < 2 ^ k) by (apply Z.pow_pos_nonneg; lia).
  assert (2 ^ k <= 2 ^ (Zdigits2 m - 1)) by (apply Z.pow_le_mono_r; lia).
  apply Z.lt_le_trans with 1; [lia|]. apply Z.div_le_lower_bound; plia.
Qed.

Lemma round_aux_nonzero (s : bool) (mx ex : Z) (lx : location) :
  0 < mx -> -1074 <= ex ->
  is_zero (binary_round_aux prec emax s mx ex lx) = false.
Proof.
  intros Hmx Hex. unfold binary_round_aux.
  pose proof (shr_fexp_pos mx ex lx Hmx Hex) as [Hm1 He1].
  destruct (shr_fexp prec emax mx ex lx) as [r1 e1]. cbn [fst snd] in Hm1, He1.
  pose proof (rne_bounds (shr_m r1) (loc_of_shr_record r1)) as Hrne.
  set (m1 := round_nearest_even (shr_m r1) (loc_of_shr_record r1)) in *.
  pose proof (shr_fexp_pos m1 e1 loc_Exact ltac:(lia) He1) as [Hm2 He2].
  destruct (shr_fexp prec emax m1 e1 loc_Exact) as [r2 e2]. cbn [fst snd] in Hm2, He2.
  destruct (shr_m r2) as [|m|m]; [lia| |reflexivity].
  destruct (e2 <=? emax - prec); reflexivity.
Qed.

(** *** Integers as floats *)

Lemma iter_xO (mx d : positive) : Z.pos (Pos.iter xO mx d) = Z.pos mx * 2 ^ Z.pos d.
Proof.
  induction d as [|d IH] using Pos.peano_ind.
  - simpl. lia.
  - rewrite Pos.iter_succ. change (Z.pos (Pos.iter xO mx d)~0) with (2 * Z.pos (Pos.iter xO mx d)).
    rewrite IH, Pos2Z.inj_succ, Z.pow_succ_r by lia. ring.
Qed.

Lemma shl_align_spec (mx : positive) (ex ex' : Z) :
  snd (shl_align mx ex ex') = Z.min ex ex'
  /\ Z.pos (fst (shl_align mx ex ex')) = Z.pos mx * 2 ^ (ex - Z.min ex ex').
Proof.
  unfold shl_align. destruct (ex' - ex) as [|d|d] eqn:Hd; cbn [fst snd].
  - rewrite Z.min_l by lia. rewrite Z.sub_diag. simpl. lia.
  - rewrite Z.min_l by lia. rewrite Z.sub_diag. simpl. lia.
  - rewrite Z.min_r by lia. split; [reflexivity|].
    rewrite iter_xO. f_equal. f_equal. lia.
Qed.

Lemma round_cases (s : bool) (mx : positive) (ex : Z) :
  let r := binary_round prec emax s mx ex in
  (r = S754_infinity s /\ (971 < ex \/ 1023 < Zdigits2 (Z.pos mx) + ex))
  \/ (exists m e, r = S754_finite s m e
                  /\ Zdigits2 (Z.pos m) <= 53 /\ e <= 971
                  /\ Zdigits2 (Z.pos m) + e <= Z.max (Zdigits2 (Z.pos mx) + ex) (-1074) + 1)
  \/ (r = S754_zero s /\ ex < -1074).
Proof.
  intros r. subst r. unfold binary_round.
  pose proof (shl_align_spec mx ex (fexp prec emax (Z.pos (digits2_pos mx) + ex))) as [He Hm].
  destruct (shl_align mx ex _) as [mz ez]. cbn [fst snd] in He, Hm.
  rewrite <- He in Hm. rewrite fexp_eq in He.
  assert (Hd : Zdigits2 (Z.pos mz) + ez = Zdigits2 (Z.pos mx) + ex).
  { rewrite Hm, digits_mul_pow2 by lia. lia. }
  change (Z.pos (digits2_pos mx)) with (Zdigits2 (Z.pos mx)) in He.
  pose proof (digits_pos (Z.pos mx) ltac:(lia)) as Hdx.
  pose proof (round_aux_cases s (Z.pos mz) ez loc_Exact ltac:(lia)) as Hc.
  cbv zeta in Hc. rewrite Hd in Hc.
  destruct (Z_lt_le_dec ex (-1074)) as [Hsmall|Hbig].
  - destruct Hc as [Hz|[[Hi Hover]|Hf]]; [right; right; auto| left | right; left; exact Hf].
    split; [exact Hi | lia].
  - pose proof (round_aux_nonzero s (Z.pos mz) ez loc_Exact ltac:(lia) ltac:(lia)) as Hnz.
    destruct Hc as [Hz|[[Hi Hover]|Hf]].
    + rewrite Hz in Hnz. discriminate.
    + left. split; [exact Hi | lia].
    + right; left; exact Hf.
Qed.

(** An integer below [2^1023] in magnitude converts to a finite float with
    the integer's sign, non-zero when the integer is. *)
Lemma of_Z_cases (z : Z) :
  z <> 0 -> Zdigits2 z <= 1023 ->
  exists m e, of_Z z = S754_finite (z <? 0) m e
              /\ Zdigits2 (Z.pos m) <= 53 /\ e <= 971
              /\ Zdigits2 (Z.pos m) + e <= Zdigits2 z + 1.
Proof.
  intros Hz Hd. unfold of_Z, binary_normalize.
  destruct z as [|p|p]; [contradiction| |].
  - pose proof (round_cases false p 0) as Hc. cbv zeta in Hc.
    pose proof (digits_pos (Z.pos p) ltac:(lia)).
    destruct Hc as [[_ Hover]|[(m & e & Hr & H1 & H2 & H3)|[_ Hlow]]]; [lia | | lia].
    exists m, e. repeat split; [exact Hr | lia | lia | lia].
  - pose proof (round_cases true p 0) as Hc. cbv zeta in Hc.
    change (Zdigits2 (Z.neg p)) with (Zdigits2 (Z.pos p)) in *.
    pose proof (digits_pos (Z.pos p) ltac:(lia)).
    destruct Hc as [[_ Hover]|[(m & e & Hr & H1 & H2 & H3)|[_ Hlow]]]; [lia | | lia].
    exists m, e. repeat split; [exact Hr | lia | lia | lia].
Qed.

Lemma of_Z_finite (z : Z) : Zdigits2 z <= 1023 -> is_finite (of_Z z) = true.
Proof.
  intros Hd. destruct (Z.eq_dec z 0) as [->|Hz]; [reflexivity|].
  destruct (of_Z_cases z Hz Hd) as (m & e & -> & _). reflexivity.
Qed.

Lemma of_Z_nonzero (z : Z) : z <> 0 -> is_zero (of_Z z) = false.
Proof.
  intros Hz. unfold of_Z, binary_normalize.
  destruct z as [|p|p]; [contradiction| |].
  - pose proof (round_cases false p 0) as Hc. cbv zeta in Hc.
    destruct Hc as [[-> _]|[(m & e & -> & _)|[_ Hlow]]]; [reflexivity | reflexivity | lia].
  - pose proof (round_cases true p 0) as Hc. cbv zeta in Hc.
    destruct Hc as [[-> _]|[(m & e & -> & _)|[_ Hlow]]]; [reflexivity | reflexivity | lia].
Qed.

(** *** Products and quotients *)


Lemma div_cases (sx sy : bool) (mx my : positive) (ex ey : Z) :
  let q := div (S754_finite sx mx ex) (S754_finite sy my ey) in
  q = S754_zero (xorb sx sy) \/ q = S754_infinity (xorb sx sy)
  \/ exists m e, q = S754_finite (xorb sx sy) m e
                 /\ Zdigits2 (Z.pos m) <= 53 /\ e <= 971.
Proof.
  intros q. subst q. unfold div, SFdiv, SFdiv_core_binary.
  set (e' := Z.min _ _). set (m' := match (ex - ey - e') with Z0 => _ | _ => _ end).
  assert (Hm' : 0 <= m').
  { subst m'. destruct (ex - ey - e'); [lia | apply Z.shiftl_nonneg; lia | lia]. }
  pose proof (Z.div_pos m' (Z.pos my) Hm' ltac:(lia)) as Hq.
  unfold Z.div in Hq. destruct (Z.div_eucl m' (Z.pos my)) as [q r]. cbn [fst] in Hq.
  pose proof (round_aux_cases (xorb sx sy) q e' (new_location (Z.pos my) r) Hq) as Hc.
  cbv zeta in Hc.
  destruct Hc as [Hz|[[Hi _]|(m & e & Hf & H1 & H2 & _)]]; [left | right; left | right; right]; eauto.
Qed.

(** *** Integers that are floats *)

Lemma iter_shr_exact (p : positive) (m : positive) :
  SpecFloat.iter_pos shr_1 p
    {| shr_m := Z.pos (Pos.iter xO m p); shr_r := false; shr_s := false |}
  = {| shr_m := Z.pos m; shr_r := false; shr_s := false |}.
Proof.
  revert m. induction p as [p IH|p IH|]; intros m.
  - cbn [SpecFloat.iter_pos Pos.iter shr_1 orb]. rewrite IH, IH. reflexivity.
  - cbn [SpecFloat.iter_pos Pos.iter]. rewrite IH, IH. reflexivity.
  - reflexivity.
Qed.

Lemma valid_bounds (s : bool) (m : positive) (e : Z) :
  valid (S754_finite s m e) = true ->
  Zdigits2 (Z.pos m) <= 53 /\ -1074 <= e <= 971.
Proof.
  unfold valid, valid_binary, bounded, canonical_mantissa.
  intros [Hc He]%andb_true_iff. apply Z.eqb_eq in Hc. apply Z.leb_le in He.
  rewrite fexp_eq in Hc. unfold emax, prec in He.
  change (Z.pos (digits2_pos m)) with (Zdigits2 (Z.pos m)) in Hc. lia.
Qed.

(** A 53-digit mantissa shifted left by [e] converts back to itself. *)
Lemma round_shifted (s : bool) (m pe : positive) :
  Zdigits2 (Z.pos m) = 53 -> Z.pos pe <= 971 ->
  binary_round prec emax s (Pos.iter xO m pe) 0 = S754_finite s m (Z.pos pe).
Proof.
  intros Hd He.
  assert (Hdz : Z.pos (digits2_pos (Pos.iter xO m pe)) = 53 + Z.pos pe).
  { change (Zdigits2 (Z.pos (Pos.iter xO m pe)) = 53 + Z.pos pe).
    rewrite iter_xO, digits_mul_pow2 by lia. lia. }
  unfold binary_round. rewrite Hdz.
  replace (fexp prec emax (53 + Z.pos pe + 0)) with (Z.pos pe) by (rewrite fexp_eq; lia).
  unfold shl_align. rewrite Z.sub_0_r.
  unfold binary_round_aux, shr_fexp.
  change (Zdigits2 (Z.pos (Pos.iter xO m pe))) with (Z.pos (digits2_pos (Pos.iter xO m pe))).
  rewrite Hdz.
  replace (fexp prec emax (53 + Z.pos pe + 0) - 0) with (Z.pos pe) by (rewrite fexp_eq; lia).
  cbn [shr shr_record_of_loc]. rewrite iter_shr_exact.
  cbn [shr_m loc_of_shr_record round_nearest_even]. rewrite Hd.
  replace (fexp prec emax (53 + (0 + Z.pos pe)) - (0 + Z.pos pe)) with 0 by (rewrite fexp_eq; lia).
  cbn [shr shr_m]. change (0 + Z.pos pe) with (Z.pos pe).
  destruct (Z.leb_spec (Z.pos pe) (emax - prec)) as [|Hgt]; [reflexivity|].
  unfold emax, prec in Hgt. lia.
Qed.

Lemma digits_opp (z : Z) : Zdigits2 (- z) = Zdigits2 z.
Proof. destruct z; reflexivity. Qed.

Lemma round_sign_finite (s1 s2 : bool) (m : positive) (e : Z) :
  is_finite (binary_round prec emax s1 m e) = is_finite (binary_round prec emax s2 m e).
Proof.
  unfold binary_round. destruct (shl_align m e _) as [mz ez].
  unfold binary_round_aux.
  destruct (shr_fexp prec emax (Z.pos mz) ez loc_Exact) as [r1 e1].
  destruct (shr_fexp prec emax _ e1 loc_Exact) as [r2 e2].
  destruct (shr_m r2); try reflexivity. destruct (e2 <=? emax - prec); reflexivity.
Qed.

Lemma of_Z_opp_finite (z : Z) : is_finite (of_Z (- z)) = is_finite (of_Z z).
Proof.
  destruct z as [|p|p]; [reflexivity| |]; cbn [Z.opp]; unfold of_Z, binary_normalize;
    apply round_sign_finite.
Qed.

(** The integer value [m * 2^e] of a float converts to a finite float. *)
Lemma of_Z_shifted_finite (m : positive) (e : Z) :
  Zdigits2 (Z.pos m) <= 53 -> 0 <= e <= 971 ->
  is_finite (of_Z (Z.pos m * 2 ^ e)) = true.
Proof.
  intros Hd He.
  assert (Hp : 0 < 2 ^ e) by (apply Z.pow_pos_nonneg; lia).
  destruct (Z_le_gt_dec (Zdigits2 (Z.pos m) + e) 1023) as [Hsmall|Hbig].
  - apply of_Z_finite. rewrite digits_mul_pow2 by lia. exact Hsmall.
  - assert (Hd53 : Zdigits2 (Z.pos m) = 53) by lia.
    destruct e as [|pe|pe]; [lia| |lia].
    rewrite <- iter_xO. unfold of_Z, binary_normalize.
    rewrite round_shifted by lia. reflexivity.
Qed.

Lemma div_half_even_bounds (num den : Z) :
  0 <= num -> 0 < den -> 0 <= div_half_even num den <= num + 1.
Proof.
  intros Hn Hd. unfold div_half_even.
  pose proof (Z.div_pos num den Hn Hd) as Hq.
  assert (Hle : num / den <= num).
  { apply Z.div_le_upper_bound; [lia|]. nia. }
  destruct (2 * (num mod den) ?= den); [destruct (Z.even (num / den))| |]; lia.
Qed.

(** Rounding a float to an integer gives an integer that converts back to
    a finite float. *)
Lemma of_Z_nearest_finite (x : float) (z : Z) :
  (forall s m e, x = S754_finite s m e -> Zdigits2 (Z.pos m) <= 53 /\ e <= 971) ->
  nearest_int x = Some z -> is_finite (of_Z z) = true.
Proof.
  intros Hb Hz. destruct x as [s|s| |s m e]; try discriminate.
  - injection Hz as <-. reflexivity.
  - destruct (Hb s m e eq_refl) as [Hd He]. simpl in Hz. injection Hz as <-.
    assert (Hgoal : forall v, is_finite (of_Z v) = true -> is_finite (of_Z (signed s v)) = true).
    { intros v Hfin. destruct s; simpl; [rewrite of_Z_opp_finite|]; exact Hfin. }
    apply Hgoal. destruct (Z.leb_spec 0 e) as [Hpos|Hneg].
    + apply of_Z_shifted_finite; lia.
    + assert (Hp : 0 < 2 ^ (- e)) by (apply Z.pow_pos_nonneg; lia).
      pose proof (div_half_even_bounds (Z.pos m) (2 ^ (- e)) ltac:(lia) Hp) as Hbd.
      pose proof (digits_upper (Z.pos m) ltac:(lia)) as Hup.
      assert (2 ^ Zdigits2 (Z.pos m) <= 2 ^ 53) by (apply Z.pow_le_mono_r; lia).
      apply of_Z_finite. etransitivity; [apply (digits_le _ 54)|]; [|lia|lia].
      change (2 ^ 54) with (2 * 2 ^ 53). plia.
Qed.

Lemma valid_bounded (x : float) :
  valid x = true ->
  forall s m e, x = S754_finite s m e -> Zdigits2 (Z.pos m) <= 53 /\ e <= 971.
Proof. intros Hv s m e ->. apply valid_bounds in Hv. lia. Qed.

Lemma nearest_int_nonneg (m : positive) (e : Z) (z : Z) :
  nearest_int (S754_finite false m e) = Some z -> 0 <= z.
Proof.
  simpl. intros [= <-]. destruct (Z.leb_spec 0 e).
  - assert (0 < 2 ^ e) by (apply Z.pow_pos_nonneg; lia). nia.
  - assert (0 < 2 ^ (- e)) by (apply Z.pow_pos_nonneg; lia).
    apply div_half_even_bounds; lia.
Qed.
End F64Facts.

(** ** Exposure time *)

Lemma ltb_infinity_l (x : float) : F64.ltb (S754_infinity false) x = false.
Proof. destruct x as [s|s| |s m e]; try destruct s; reflexivity. Qed.

(** With a zero denominator the rule's test fails, as the guard
    [denom > 0] of the source does. *)
Lemma fraction_test_zero (m : positive) (e : Z) (bound : float) :
  F64.ltb (F64.abs (F64.sub (F64.div lit_1_0 (F64.of_Z 0)) (S754_finite false m e)))
          bound = false.
Proof. apply ltb_infinity_l. Qed.

Lemma py_round_finite (x : float) :
  F64.is_finite x = true -> py_round x = Ok (round_int x).
Proof. destruct x; try discriminate; reflexivity. Qed.

Lemma float_of_int_finite (z : Z) :
  F64.is_finite (F64.of_Z z) = true -> float_of_int z = Ok (F64.of_Z z).
Proof. intros H. unfold float_of_int. rewrite H. reflexivity. Qed.

Lemma float_truediv_nonzero (a b : float) :
  F64.is_zero b = false -> float_truediv a b = Ok (F64.div a b).
Proof. intros H. unfold float_truediv. rewrite H. reflexivity. Qed.

Lemma round_int_nearest (x : float) :
  F64.is_finite x = true -> F64.nearest_int x = Some (round_int x).
Proof. destruct x; try discriminate; reflexivity. Qed.

(** C4. For every raw value normalizing to a positive finite float [t]
    (with [1/t] finite when [t < 1.0]) the exposure-time formatter returns
    the string of the rule: below one second "1/denom s" with
    [denom = round(1/t)] when [|1/denom - t| < 0.02 * t] and three decimals
    otherwise; from one second on the integer when [|t - round(t)| < 0.05]
    and one decimal otherwise. *)
Theorem format_exposure_time_rule (val : pyval) (t : float) :
  _rational_to_float val = Ok (Some t) ->
  F64.valid t = true ->
  F64.ltb F64.zero t = true ->
  F64.is_finite t = true ->
  (F64.ltb t lit_1_0 = true -> F64.is_finite (F64.div lit_1_0 t) = true) ->
  _format_exposure_time val = Ok (Some (exposure_rule t)).
Proof.
  intros Hn Hvalid Hpos Hfin Hinv.
  unfold _format_exposure_time, exposure_rule. rewrite Hn.
  cbn [mbind result_bind rbind]. rewrite (positive_not_le_zero _ Hpos).
  destruct (positive_shape _ Hpos) as [->|(m & e & ->)]; [discriminate|].
  destruct (F64.ltb (S754_finite false m e) lit_1_0) eqn:Hlt.
  - (* below one second *)
    specialize (Hinv eq_refl).
    rewrite (float_truediv_nonzero lit_1_0 (S754_finite false m e) eq_refl).
    cbn [mbind result_bind rbind].
    set (q := F64.div lit_1_0 (S754_finite false m e)) in *.
    rewrite (py_round_finite _ Hinv). cbn [mbind result_bind rbind].
    assert (Hq : forall s mq eq, q = S754_finite s mq eq ->
                 Zdigits2 (Z.pos mq) <= 53 /\ eq <= 971).
    { intros s mq eq Heq. subst q. unfold lit_1_0 in Heq.
      destruct (F64Facts.div_cases false false 4503599627370496 m (-52) e)
        as [Hz|[Hi|(m' & e' & Hf & H1 & H2)]]; cbv zeta in *; try congruence.
      rewrite Hf in Heq. injection Heq as <- <- <-. lia. }
    assert (Hnonneg : 0 <= round_int q).
    { subst q. unfold lit_1_0 in *.
      destruct (F64Facts.div_cases false false 4503599627370496 m (-52) e)
        as [Hz|[Hi|(m' & e' & Hf & _)]]; cbv zeta in *.
      - rewrite Hz. unfold round_int. simpl. lia.
      - rewrite Hi in Hinv. discriminate.
      - rewrite Hf. apply (F64Facts.nearest_int_nonneg m' e'). reflexivity. }
    destruct (Z.ltb_spec 0 (round_int q)) as [Hdpos|Hdzero].
    + pose proof (F64Facts.of_Z_nearest_finite q (round_int q) Hq
                    (round_int_nearest _ Hinv)) as Hfd.
      rewrite (float_of_int_finite _ Hfd). cbn [mbind result_bind rbind].
      rewrite (float_truediv_nonzero lit_1_0 _ (F64Facts.of_Z_nonzero (round_int q) ltac:(lia))).
      cbn [mbind result_bind rbind].
      match goal with |- (if ?b then _ else _) = _ => destruct b end; reflexivity.
    + assert (Hz : round_int q = 0) by lia. rewrite Hz.
      cbn [mbind result_bind rbind]. rewrite fraction_test_zero. reflexivity.
  - (* one second and more *)
    rewrite (py_round_finite _ Hfin). cbn [mbind result_bind rbind].
    pose proof (F64Facts.of_Z_nearest_finite _ _ (F64Facts.valid_bounded _ Hvalid)
                  (round_int_nearest _ Hfin)) as Hfr.
    rewrite (float_of_int_finite _ Hfr). cbn [mbind result_bind rbind].
    match goal with |- (if ?b then _ else _) = _ => destruct b end; reflexivity.
Qed.

Lemma format_exposure_time_rule_witness :
  let t := F64.of_decimal 1 (-2) in
  _rational_to_float (VFloat t) = Ok (Some t)
  /\ exposure_rule t = "1/100s"
  /\ _format_exposure_time (VFloat t) = Ok (Some "1/100s").
Proof.
  split; [reflexivity|]. split; [vm_compute; reflexivity|].
  rewrite (format_exposure_time_rule (VFloat (F64.of_decimal 1 (-2)))
             (F64.of_decimal 1 (-2)));
    [| reflexivity | reflexivity | reflexivity | reflexivity | reflexivity].
  vm_compute. reflexivity.
Defined.

Example format_exposure_time_examples :
  _format_exposure_time (flt 1 (-2)) = Ok (Some "1/100s")
  /\ _format_exposure_time (flt 3 (-1)) = Ok (Some "0.300s")
  /\ _format_exposure_time (flt 2 0) = Ok (Some "2s")
  /\ _format_exposure_time (flt 23 (-1)) = Ok (Some "2.3s")
  /\ _format_exposure_time (VTuple [VInt 1; VInt 250]) = Ok (Some "1/250s").
Proof. repeat split; vm_compute; reflexivity. Qed.

(** A positive float on which the formatter returns nothing: an infinity,
    and a float so small that its reciprocal overflows. *)
Lemma format_exposure_time_overflow :
  _rational_to_float (VFloat F64.infinity) = Ok (Some F64.infinity)
  /\ F64.ltb F64.zero F64.infinity = true
  /\ _format_exposure_time (VFloat F64.infinity) = Raise OverflowError
  /\ F64.ltb F64.zero (F64.of_decimal 5 (-324)) = true
  /\ _format_exposure_time (flt 5 (-324)) = Raise OverflowError.
Proof. repeat split; vm_compute; reflexivity. Qed.

(** ** Canvas geometry *)

Ltac inv_bind H :=
  match type of H with
  | (_ ≫= _) = Ok _ =>
      let x := fresh "x" in
      let Hx := fresh "Hx" in
      apply bind_Ok in H as (x & Hx & H)
  end.

Lemma int_of_float_trunc (x : float) (z : Z) :
  int_of_float x = Ok z <-> F64.trunc_int x = Some z.
Proof.
  destruct x as [s|s| |s m e]; simpl; split; intros H; try discriminate;
    congruence.
Qed.

(** [int(r * n)] for a float ratio [r]: what it returns is the truncated
    product. *)
Lemma scaled_float_inv (tpl : gmap string pyval) (key : string) (r : float) (n z : Z) :
  tpl !! key = Some (VFloat r) ->
  scaled tpl key n = Ok z ->
  F64.trunc_int (F64.mul r (F64.of_Z n)) = Some z.
Proof.
  intros Hr H. unfold scaled, getitem in H. rewrite Hr in H.
  cbn [mbind result_bind rbind py_mul_int] in H.
  inv_bind H. inv_bind Hx. injection Hx as <-.
  unfold float_of_int in Hx0. destruct (F64.is_finite (F64.of_Z n)); [|discriminate].
  injection Hx0 as <-. apply int_of_float_trunc, H.
Qed.



Lemma canvas_size_inv (tpl : gmap string pyval) (w h B : Z) (r : float)
    (border cw ch : Z) :
  tpl !! "border_px" = Some (VInt B) ->
  tpl !! "bottom_band_ratio" = Some (VFloat r) ->
  canvas_size tpl w h = Ok (border, (cw, ch)) ->
  border = B /\ cw = w + 2 * B /\ ch = h + truncated_band r w + 2 * B.
Proof.
  intros HB Hr H. unfold canvas_size, getitem in H. rewrite HB in H.
  cbn [mbind result_bind rbind py_int] in H.
  inv_bind H. apply (scaled_float_inv _ _ _ _ _ Hr) in Hx.
  injection H as <- <- <-. unfold truncated_band. rewrite Hx. simpl. lia.
Qed.

Lemma paste_logo_center_size (W : world) (cv cv' : canvas) (logo_path : string)
    (max_height y : Z) (yh : Z * Z) :
  paste_logo_center W cv logo_path max_height y = Ok (cv', yh) ->
  cv_width cv' = cv_width cv /\ cv_height cv' = cv_height cv.
Proof.
  unfold paste_logo_center. destruct (open_rgba W logo_path) as [logo|e].
  - destruct (img_size logo) as [w h]. intros H. inv_bind H.
    destruct x as [logo' [w' h']]. injection H as <- _. split; reflexivity.
  - intros [= <- _]. split; reflexivity.
Qed.

Lemma draw_centered_text_size (W : world) (cv : canvas) (text : string)
    (fnt : font) (canvas_w y : Z) (color : pyval) :
  cv_width (draw_centered_text W cv text fnt canvas_w y color).1 = cv_width cv
  /\ cv_height (draw_centered_text W cv text fnt canvas_w y color).1 = cv_height cv.
Proof.
  unfold draw_centered_text. destruct (textbbox W fnt text). split; reflexivity.
Qed.

(** What a successful composition saved: a canvas of the size computed by
    [canvas_size], at the path computed by [output_path]. *)
Lemma compose_saved (W : world) (tpl : gmap string pyval) (src : image)
    (out_path : string) (logo_path : option string) (fonts : list string)
    (fr : framed) :
  compose W tpl src out_path logo_path fonts = Ok fr ->
  exists border,
    canvas_size tpl (img_size src).1 (img_size src).2
    = Ok (border, (cv_width (saved_canvas fr), cv_height (saved_canvas fr)))
    /\ saved_path fr = output_path W out_path.
Proof.
  unfold compose. destruct (img_size src) as [w h]. cbn [fst snd]. intros H.
  apply bind_Ok in H as (params & Hparams & H).
  apply bind_Ok in H as ([border [cw ch]] & Hsize & H).
  exists border. rewrite Hsize.
  apply bind_Ok in H as (bg & Hbg & H).
  apply bind_Ok in H as (fill & Hfill & H).
  apply bind_Ok in H as (cv0 & Hcv0 & H).
  assert (Hs0 : cv_width cv0 = cw /\ cv_height cv0 = ch).
  { destruct (0 <? border); [apply bind_Ok in Hcv0 as (outline & _ & Hcv0)|];
      injection Hcv0 as <-; split; reflexivity. }
  apply bind_Ok in H as (brand_size & _ & H).
  apply bind_Ok in H as (meta_size & _ & H).
  apply bind_Ok in H as (gap & _ & H).
  apply bind_Ok in H as (logo_max_h & _ & H).
  apply bind_Ok in H as (brand_font & _ & H).
  apply bind_Ok in H as (meta_font & _ & H).
  apply bind_Ok in H as (use_logo & _ & H).
  apply bind_Ok in H as ([cv1 y1] & Hlogo & H).
  assert (Hs1 : cv_width cv1 = cw /\ cv_height cv1 = ch).
  { destruct logo_path as [lp|];
      [destruct (truthy use_logo && Str.nonempty lp && path_exists W lp)|];
      [apply bind_Ok in Hlogo as ([cv2 [y2 lh]] & Hpaste & Hlogo);
       apply paste_logo_center_size in Hpaste as [Hw Hh] | |];
      injection Hlogo as <- _; cbn [draw cv_width cv_height] in *; lia. }
  apply bind_Ok in H as (text_color & _ & H).
  match type of H with
  | (let '(_, _) := ?p in _) = _ => destruct p as [cv3 y3] eqn:Hp
  end.
  assert (Hs3 : cv_width cv3 = cw /\ cv_height cv3 = ch).
  { destruct text_color as [color|].
    - match type of Hp with
      | context [draw_centered_text ?a ?b ?c ?d ?e ?f ?g] =>
          pose proof (draw_centered_text_size a b c d e f g) as Hs;
          destruct (draw_centered_text a b c d e f g) as [cv4 y4]
      end.
      injection Hp as <- _. cbn [fst] in Hs. lia.
    - injection Hp as <- _. exact Hs1. }
  apply bind_Ok in H as (cv5 & Hmeta & H).
  assert (Hs5 : cv_width cv5 = cw /\ cv_height cv5 = ch).
  { destruct (Str.nonempty (meta_line_of params)).
    - apply bind_Ok in Hmeta as (color & _ & Hmeta). injection Hmeta as <-.
      match goal with
      | |- context [draw_centered_text ?a ?b ?c ?d ?e ?f ?g] =>
          pose proof (draw_centered_text_size a b c d e f g)
      end. lia.
    - injection Hmeta as <-. exact Hs3. }
  apply bind_Ok in H as (u1 & _ & H).
  apply bind_Ok in H as (u2 & _ & H).
  injection H as <-. cbn [saved_canvas saved_path].
  destruct Hs5 as [-> ->]. split; reflexivity.
Qed.

(** C3. The canvas a successful composition saves has width [W + 2B] and
    height [H + int(r * W) + 2B]: the band height is the product of the
    ratio and the source width truncated toward zero, not rounded. *)
Theorem canvas_size_truncated (W : world) (tpl : gmap string pyval) (src : image)
    (out_path : string) (logo_path : option string) (fonts : list string)
    (fr : framed) (B : Z) (r : float) :
  compose W tpl src out_path logo_path fonts = Ok fr ->
  tpl !! "border_px" = Some (VInt B) ->
  tpl !! "bottom_band_ratio" = Some (VFloat r) ->
  cv_width (saved_canvas fr) = (img_size src).1 + 2 * B
  /\ cv_height (saved_canvas fr)
     = (img_size src).2 + truncated_band r (img_size src).1 + 2 * B.
Proof.
  intros Hc HB Hr. apply compose_saved in Hc as (border & Hsize & _).
  apply (canvas_size_inv _ _ _ _ _ _ _ _ HB Hr) in Hsize as (_ & Hw & Hh).
  split; assumption.
Qed.

Lemma canvas_size_truncated_witness :
  let W := Sample.world_of Sample.exif_no_focal in
  let src := Sample.photo Sample.exif_no_focal in
  exists fr,
    compose W Nikon_like src "out" None default_fonts = Ok fr
    /\ cv_width (saved_canvas fr) = 1043
    /\ cv_height (saved_canvas fr) = 920.
Proof.
  intros W src.
  destruct (compose W Nikon_like src "out" None default_fonts) as [fr|e] eqn:Hc;
    [|vm_compute in Hc; discriminate Hc].
  exists fr. split; [reflexivity|].
  destruct (canvas_size_truncated W Nikon_like src "out" None default_fonts fr
              20 (F64.of_decimal 18 (-2)) Hc eq_refl eq_refl) as [Hw Hh].
  rewrite Hw, Hh. split; vm_compute; reflexivity.
Defined.

(** A source 1003 pixels wide under [Nikon_like]: [0.18 * 1003 = 180.54],
    the band is 180 pixels high where rounding gives 181. *)
Lemma canvas_size_not_rounded :
  Nikon_like !! "border_px" = Some (VInt 20)
  /\ Nikon_like !! "bottom_band_ratio" = Some (VFloat (F64.of_decimal 18 (-2)))
  /\ canvas_size Nikon_like 1003 700 = Ok (20, (1043, 920))
  /\ (fun fr => (cv_width (saved_canvas fr), cv_height (saved_canvas fr)))
       <$> compose (Sample.world_of Sample.exif_no_focal) Nikon_like
             (Sample.photo Sample.exif_no_focal) "out" None default_fonts
     = Ok (1043, 920)
  /\ rounded_band (F64.of_decimal 18 (-2)) 1003 = 181
  /\ (1043, 920) <> (1003 + 2 * 20,
                     700 + rounded_band (F64.of_decimal 18 (-2)) 1003 + 2 * 20).
Proof. repeat split; vm_compute; congruence. Qed.

(** Truncation is toward zero: the integer part of the exact value. *)
Lemma trunc_int_toward_zero (m : positive) (e z : Z) :
  e < 0 ->
  F64.trunc_int (S754_finite false m e) = Some z ->
  z * 2 ^ (- e) <= Z.pos m < (z + 1) * 2 ^ (- e).
Proof.
  intros He. simpl. destruct (Z.leb_spec 0 e); [lia|]. intros [= <-].
  assert (Hp : 0 < 2 ^ (- e)) by (apply Z.pow_pos_nonneg; lia).
  pose proof (Z.div_mod (Z.pos m) (2 ^ (- e)) ltac:(lia)).
  pose proof (Z.mod_pos_bound (Z.pos m) (2 ^ (- e)) Hp). nia.
Qed.

(** On a non-negative float rounding and truncation differ by at most
    one. *)
Lemma nearest_int_trunc_int (m : positive) (e : Z) (zr zt : Z) :
  F64.nearest_int (S754_finite false m e) = Some zr ->
  F64.trunc_int (S754_finite false m e) = Some zt ->
  zt <= zr <= zt + 1.
Proof.
  simpl. intros [= <-] [= <-]. destruct (0 <=? e); [lia|].
  unfold F64.div_half_even.
  destruct (2 * (Z.pos m mod 2 ^ (- e)) ?= 2 ^ (- e));
    [destruct (Z.even (Z.pos m / 2 ^ (- e)))| |]; lia.
Qed.


(** ** The [minimal_black] template *)





(** C10. Frame composition saves to the path with ".jpg" appended when its
    lowercased form does not end in ".jpg", whatever extension it already
    carries ("photo.png" is saved as "photo.png.jpg"); a path that ends in
    ".jpg" in any case keeps its name. *)
Theorem saved_path_extension (W : world) (tpl : gmap string pyval) (src : image)
    (out_path : string) (logo_path : option string) (fonts : list string)
    (fr : framed) :
  compose W tpl src out_path logo_path fonts = Ok fr ->
  saved_path fr =
    if Str.endswith (Str.lower out_path) ".jpg" then located W out_path
    else located W out_path +:+ ".jpg".
Proof.
  intros Hc. apply compose_saved in Hc as (_ & _ & ->).
  apply output_path_extension.
Qed.

Lemma saved_path_extension_witness :
  let W := Sample.world_of Sample.exif_no_focal in
  let src := Sample.photo Sample.exif_no_focal in
  exists fr,
    compose W Nikon_like src "photo.png" None default_fonts = Ok fr
    /\ saved_path fr = "/home/user/photo.png.jpg".
Proof.
  intros W src.
  destruct (compose W Nikon_like src "photo.png" None default_fonts) as [fr|e] eqn:Hc;
    [|vm_compute in Hc; discriminate Hc].
  exists fr. split; [reflexivity|].
  rewrite (saved_path_extension W Nikon_like src "photo.png" None default_fonts fr Hc).
  vm_compute. reflexivity.
Defined.

Example saved_path_jpg_kept :
  saved_path <$> compose (Sample.world_of Sample.exif_no_focal) Nikon_like
                   (Sample.photo Sample.exif_no_focal) "out/Photo.JPG" None default_fonts
  = Ok "out/Photo.JPG".
Proof. vm_compute. reflexivity. Qed.

(** * The rest of the module *)

(** ** EXIF dictionary *)

(** The last value among the raw entries whose tag is named [name]. *)
Lemma last_named_cons (W : world) (tag_id : Z) (value : pyval)
    (raw : list (Z * pyval)) (name : string) :
  last_named W ((tag_id, value) :: raw) name
  = match last_named W raw name with
    | Some v => Some v
    | None => if bool_decide (TAGS W tag_id = Some name) then Some value else None
    end.
Proof.
  unfold last_named. cbn [omap list_omap].
  case_bool_decide; [rewrite last_cons|]; destruct (last _); reflexivity.
Qed.

Lemma exif_fold_lookup (W : world) (raw : list (Z * pyval)) (acc : gmap string pyval)
    (name : string) :
  foldl (fun exif '(tag_id, value) =>
           match TAGS W tag_id with
           | Some tag_name => <[tag_name := value]> exif
           | None => exif
           end) acc raw !! name
  = match last_named W raw name with
    | Some v => Some v
    | None => acc !! name
    end.
Proof.
  revert acc. induction raw as [|[tag_id value] raw IH]; intros acc; [reflexivity|].
  cbn [foldl]. rewrite IH, last_named_cons.
  destruct (last_named W raw name); [reflexivity|].
  destruct (TAGS W tag_id) as [tag_name|] eqn:Htag.
  - case_bool_decide as Hname.
    + injection Hname as ->. apply lookup_insert_eq.
    + apply lookup_insert_ne. congruence.
  - case_bool_decide; [discriminate | reflexivity].
Qed.

(** X1. A lookup by name in the dictionary that [_get_exif_dict] builds gives
    the value of the last raw entry whose tag carries that name, and nothing
    when there is none; unreadable EXIF data give the empty dictionary. *)
Theorem get_exif_dict_lookup (W : world) (img : image) (name : string) :
  _get_exif_dict W img !! name
  = match img_exif img with
    | Ok raw => last_named W raw name
    | Raise _ => None
    end.
Proof.
  unfold _get_exif_dict. destruct (img_exif img) as [raw|e]; [|apply lookup_empty].
  rewrite exif_fold_lookup, lookup_empty. destruct (last_named W raw name); reflexivity.
Qed.

(** ** Camera parameters *)

Lemma put_lookup_ne (key k : string) (s : option string) (out : gmap string string) :
  key <> k -> put key s out !! k = out !! k.
Proof.
  intros Hne. unfold put. destruct s as [v|]; [|reflexivity].
  destruct (Str.nonempty v); [apply lookup_insert_ne, Hne | reflexivity].
Qed.

Lemma put_lookup_is_Some (key k : string) (s : option string) (out : gmap string string) :
  is_Some (put key s out !! k) -> k = key \/ is_Some (out !! k).
Proof.
  destruct (decide (key = k)) as [->|Hne]; [left; reflexivity|].
  rewrite put_lookup_ne by exact Hne. right; assumption.
Qed.

Lemma if_not_none_focal (v : pyval) (r : option string) :
  if_not_none _format_focal v = Ok r -> r = None.
Proof.
  destruct v; simpl; try apply format_focal_returns_only_none. congruence.
Qed.

(** X2. Whatever the image, a dictionary that [extract_camera_params]
    returns has no entry for the focal length, and its keys are among
    brand, model, lens, fnumber, shutter and iso. *)
Theorem extract_camera_params_keys (W : world) (img : image)
    (params : gmap string string) :
  extract_camera_params W img = Ok params ->
  params !! "focal" = None
  /\ forall k, is_Some (params !! k) -> k ∈ camera_keys.
Proof.
  unfold extract_camera_params.
  destruct (if_not_none _format_focal _) as [focal_s|] eqn:Hfocal; [|discriminate].
  apply if_not_none_focal in Hfocal as ->.
  destruct (if_not_none _format_fnumber _) as [fnum_s|]; [|discriminate].
  destruct (if_not_none _format_exposure_time _) as [shutter_s|]; [|discriminate].
  cbn [mbind result_bind rbind]. intros [= <-].
  match goal with |- ?T !! "focal" = None /\ _ => set (out := T) end.
  assert (Hkeys : forall k, is_Some (out !! k) -> k ∈ camera_keys).
  { intros k Hk. subst out. unfold camera_keys.
    repeat match type of Hk with
           | is_Some (put _ _ _ !! _) => apply put_lookup_is_Some in Hk as [->|Hk]
           | is_Some ((if ?b then _ else _) !! _) => destruct b
           | is_Some (<[_ := _]> _ !! _) =>
               apply lookup_insert_is_Some in Hk as [<-|[_ Hk]]
           | is_Some (∅ !! _) => rewrite lookup_empty in Hk; destruct Hk; discriminate
           end;
      repeat first [apply list_elem_of_here | apply list_elem_of_further]. }
  split; [|exact Hkeys].
  destruct (out !! "focal") as [v|] eqn:Hv; [|reflexivity].
  specialize (Hkeys "focal" (ex_intro _ v Hv)). unfold camera_keys in Hkeys.
  exfalso. repeat (apply elem_of_cons in Hkeys as [Hkeys|Hkeys]; [discriminate|]).
  apply elem_of_nil in Hkeys. exact Hkeys.
Qed.

Lemma extract_camera_params_keys_witness :
  let W := Sample.world_of Sample.exif_no_focal in
  exists params,
    extract_camera_params W (Sample.photo Sample.exif_no_focal) = Ok params
    /\ params !! "focal" = None
    /\ forall k, is_Some (params !! k) -> k ∈ camera_keys.
Proof.
  intros W.
  destruct (extract_camera_params W (Sample.photo Sample.exif_no_focal))
    as [params|e] eqn:He; [|vm_compute in He; discriminate He].
  exists params. split; [reflexivity|].
  exact (extract_camera_params_keys W (Sample.photo Sample.exif_no_focal) params He).
Defined.

Lemma put_lookup_empty (key k : string) (s : option string) (out : gmap string string) :
  put key s out !! k = Some "" -> out !! k = Some "".
Proof.
  unfold put. destruct s as [v|]; [|trivial].
  destruct (Str.nonempty v) eqn:Hv; [|trivial].
  destruct (decide (key = k)) as [->|Hne].
  - rewrite lookup_insert_eq. intros [= ->]. discriminate Hv.
  - rewrite lookup_insert_ne by exact Hne. trivial.
Qed.

(** X3. In a dictionary that [extract_camera_params] returns, every key
    other than "lens" holds a non-empty string; the lens text is stored
    after stripping without that test. *)
Theorem extract_camera_params_nonempty (W : world) (img : image)
    (params : gmap string string) (k : string) :
  extract_camera_params W img = Ok params ->
  k <> "lens" -> params !! k <> Some "".
Proof.
  unfold extract_camera_params.
  destruct (if_not_none _format_focal _) as [focal_s|]; [|discriminate].
  destruct (if_not_none _format_fnumber _) as [fnum_s|]; [|discriminate].
  destruct (if_not_none _format_exposure_time _) as [shutter_s|]; [|discriminate].
  cbn [mbind result_bind rbind]. intros [= <-] Hk He.
  repeat match type of He with
         | put _ _ _ !! _ = _ => apply put_lookup_empty in He
         | (if ?b then _ else _) !! _ = _ => destruct b eqn:?
         | <[?key := _]> _ !! _ = _ =>
             destruct (decide (key = k)) as [<-|?];
             [rewrite lookup_insert_eq in He; injection He as He
             |rewrite lookup_insert_ne in He by assumption]
         | ∅ !! _ = _ => rewrite lookup_empty in He; discriminate He
         end;
    first [congruence
          | match goal with
            | H : Str.nonempty _ = true |- _ => rewrite He in H; discriminate H
            end].
Qed.

Lemma extract_camera_params_nonempty_witness :
  let W := Sample.world_of [(271, VStr "  "); (272, VStr "Z6")] in
  exists params,
    extract_camera_params W (Sample.photo [(271, VStr "  "); (272, VStr "Z6")]) = Ok params
    /\ params !! "brand" <> Some "".
Proof.
  intros W.
  destruct (extract_camera_params W (Sample.photo [(271, VStr "  "); (272, VStr "Z6")]))
    as [params|e] eqn:He; [|vm_compute in He; discriminate He].
  exists params. split; [reflexivity|].
  apply (extract_camera_params_nonempty W _ params "brand" He). discriminate.
Defined.

(** X4. An image without EXIF entries gives the empty dictionary of camera
    parameters, without an error. *)
Theorem extract_camera_params_no_exif (W : world) (img : image) :
  _get_exif_dict W img = ∅ -> extract_camera_params W img = Ok ∅.
Proof. intros H. unfold extract_camera_params. rewrite H. reflexivity. Qed.

Lemma extract_camera_params_no_exif_witness :
  let W := Sample.world_of [] in
  let img := {| img_size := (640, 480); img_mode := "RGB"; img_exif := Raise OSError |} in
  _get_exif_dict W img = ∅
  /\ extract_camera_params W img = Ok ∅
  /\ extract_camera_params W (Sample.photo []) = Ok ∅.
Proof.
  intros W img. split; [reflexivity|]. split.
  - apply (extract_camera_params_no_exif W img). reflexivity.
  - apply (extract_camera_params_no_exif W (Sample.photo [])). reflexivity.
Defined.

(** X5. The f-number formatter never raises, unlike the formatters of the
    focal length and of the exposure time: it returns nothing, or a text
    that starts with the letter F. *)
Theorem format_fnumber_outcome (val : pyval) :
  exists r, _format_fnumber val = Ok r
            /\ (r = None \/ exists digits, r = Some (String "F" digits)).
Proof.
  unfold _format_fnumber.
  destruct (rational_to_float_returns val) as [[x|] ->];
    cbn [mbind result_bind rbind].
  - destruct (F64.leb x F64.zero).
    + eexists; split; [reflexivity | left; reflexivity].
    + eexists; split; [reflexivity|]. right.
      change ("F" +:+ F64.to_fixed 1 x) with (String "F" (F64.to_fixed 1 x)).
      destruct (rstrip_keeps_head "0" "F" (F64.to_fixed 1 x)) as [s1 ->]; [discriminate|].
      destruct (rstrip_keeps_head "." "F" s1) as [s2 ->]; [discriminate|].
      exists s2. reflexivity.
  - eexists; split; [reflexivity | left; reflexivity].
Qed.

Lemma format_focal_raises (v : pyval) (x : float) :
  _rational_to_float v = Ok (Some x) -> F64.ltb F64.zero x = true ->
  if_not_none _format_focal v = Raise (NameError "f").
Proof.
  intros Hn Hpos.
  assert (Hfmt : _format_focal v = Raise (NameError "f")).
  { unfold _format_focal. rewrite Hn. cbn [mbind result_bind rbind].
    rewrite (positive_not_le_zero _ Hpos). reflexivity. }
  destruct v; exact Hfmt.
Qed.

(** X6. When the EXIF data of the source hold a focal length that
    normalizes to a positive number, [make_framed_image] raises [NameError]
    and saves nothing, whatever the template, the logo, the fonts and the
    output path. *)
Theorem focal_length_stops_composition (W : world) (img_path out_path : string)
    (logo_path : option string) (template_name : string)
    (fonts : option (list string)) (src : image) (x : float) :
  open_rgb W img_path = Ok src ->
  _rational_to_float (get (_get_exif_dict W src) "FocalLength") = Ok (Some x) ->
  F64.ltb F64.zero x = true ->
  make_framed_image W img_path out_path logo_path template_name fonts
  = Raise (NameError "f").
Proof.
  intros Hopen Hn Hpos. unfold make_framed_image. rewrite Hopen.
  unfold compose. destruct (img_size src) as [w h].
  unfold extract_camera_params. rewrite (format_focal_raises _ _ Hn Hpos).
  reflexivity.
Qed.

Lemma focal_length_stops_composition_witness :
  let W := Sample.world_of Sample.exif_full in
  make_framed_image W "photo.jpg" "out.jpg" None "Nikon_like" None
  = Raise (NameError "f").
Proof.
  intros W.
  apply (focal_length_stops_composition W "photo.jpg" "out.jpg" None "Nikon_like"
           None (Sample.photo Sample.exif_full) (F64.of_decimal 50 0));
    reflexivity.
Defined.

(** ** Drawing *)

(** X7. [draw_centered_text] adds exactly one line of text to the canvas,
    at the given height and floor-centred: the left margin is at most the
    right margin and at most one pixel smaller; it returns the bottom of the
    text. *)
Theorem draw_centered_text_centered (W : world) (cv : canvas) (text : string)
    (fnt : font) (canvas_w y : Z) (color : pyval) :
  let '(text_w, text_h) := textbbox W fnt text in
  let '(cv', bottom) := draw_centered_text W cv text fnt canvas_w y color in
  exists x,
    cv_ops cv' = cv_ops cv ++ [Text x y text fnt color]
    /\ x <= canvas_w - text_w - x <= x + 1
    /\ bottom = y + text_h
    /\ cv_width cv' = cv_width cv /\ cv_height cv' = cv_height cv.
Proof.
  unfold draw_centered_text. destruct (textbbox W fnt text) as [text_w text_h].
  exists ((canvas_w - text_w) `div` 2). cbn [draw cv_ops cv_width cv_height].
  repeat split; try reflexivity;
    pose proof (Z.div_mod (canvas_w - text_w) 2 ltac:(lia));
    pose proof (Z.mod_pos_bound (canvas_w - text_w) 2 ltac:(lia)); lia.
Qed.

(** X8. [load_font] is settled by the first candidate that is non-empty and
    exists: it returns that candidate at the requested size when it loads,
    and raises the [NameError] of its handler when it does not, without
    looking at the candidates after it; it returns the built-in face exactly
    when every candidate is empty or missing. *)
Theorem load_font_outcome (W : world) (paths : list string) (size : Z) :
  match load_font W paths size with
  | Ok DefaultFont => forallb (passed_over W) paths = true
  | Ok (TrueType p sz) =>
      sz = size
      /\ exists skip rest,
           paths = skip ++ p :: rest /\ forallb (passed_over W) skip = true
           /\ passed_over W p = false /\ font_error W p size = None
  | Raise e =>
      e = NameError "path"
      /\ exists skip p rest,
           paths = skip ++ p :: rest /\ forallb (passed_over W) skip = true
           /\ passed_over W p = false /\ is_Some (font_error W p size)
  end.
Proof.
  induction paths as [|p paths IH]; [reflexivity|]. cbn [load_font].
  destruct (Str.nonempty p && path_exists W p) eqn:Hp.
  - assert (Hpass : passed_over W p = false) by (unfold passed_over; rewrite Hp; reflexivity).
    unfold truetype. destruct (font_error W p size) as [e|] eqn:Hload.
    + cbn [mbind result_bind rbind]. split; [reflexivity|].
      exists [], p, paths. rewrite Hload.
      repeat split; [assumption | eexists; reflexivity].
    + split; [reflexivity|]. exists [], paths. repeat split; assumption.
  - assert (Hpass : passed_over W p = true) by (unfold passed_over; rewrite Hp; reflexivity).
    destruct (load_font W paths size) as [[q sz|]|e].
    + destruct IH as (-> & skip & rest & -> & Hskip & Hq & Hload).
      split; [reflexivity|]. exists (p :: skip), rest.
      split; [reflexivity|]. split; [|split; assumption].
      cbn [forallb]. rewrite Hpass. exact Hskip.
    + cbn [forallb]. rewrite Hpass. exact IH.
    + destruct IH as (-> & skip & q & rest & -> & Hskip & Hq & Hload).
      split; [reflexivity|]. exists (p :: skip), q, rest.
      split; [reflexivity|]. split; [|split; assumption].
      cbn [forallb]. rewrite Hpass. exact Hskip.
Qed.

Lemma load_font_first_loadable_witness :
  let W := Sample.world_of [] in
  load_font W (["custom.ttf"; ""] ++ Sample.dejavu :: ["broken.ttf"]) 27
  = Ok (TrueType Sample.dejavu 27).
Proof.
  intros W.
  apply (load_font_first_loadable W ["custom.ttf"; ""] ["broken.ttf"] Sample.dejavu 27);
    reflexivity.
Defined.

Lemma paste_logo_center_inv (W : world) (cv cv' : canvas) (logo_path : string)
    (max_height y y' h : Z) :
  paste_logo_center W cv logo_path max_height y = Ok (cv', (y', h)) ->
  (raises (open_rgba W logo_path) /\ cv' = cv /\ y' = y /\ h = 0)
  \/ (exists logo x,
        open_rgba W logo_path = Ok logo
        /\ img_size logo = ((img_size logo).1, h) /\ h <= max_height
        /\ x <= cv_width cv - (img_size logo).1 - x <= x + 1
        /\ cv' = draw (AlphaComposite logo x y) cv /\ y' = y + h).
Proof.
  unfold paste_logo_center. destruct (open_rgba W logo_path) as [logo|e] eqn:Hopen.
  - destruct (img_size logo) as [w hl] eqn:Hsize.
    destruct (Z.ltb_spec max_height hl) as [Htall|Hfits].
    + intros H. exfalso.
      repeat match type of H with
             | Raise _ = Ok _ => discriminate H
             | Raise _ ≫= _ = Ok _ => discriminate H
             | (?m ≫= _) ≫= _ = Ok _ =>
                 destruct m; cbn [mbind result_bind rbind] in H
             end.
    + cbn [mbind result_bind rbind]. intros [= <- <- <-]. right.
      exists logo, ((cv_width cv - w) `div` 2). rewrite Hsize. cbn [fst].
      repeat split; try reflexivity; try lia;
        pose proof (Z.div_mod (cv_width cv - w) 2 ltac:(lia));
        pose proof (Z.mod_pos_bound (cv_width cv - w) 2 ltac:(lia)); lia.
  - intros [= <- <- <-]. left. repeat split; try reflexivity. exists e. reflexivity.
Qed.

(** X10. When logo placement returns, the canvas is either untouched, with
    the cursor where it was and height 0 (the logo did not decode), or it
    carries the decoded logo unscaled and floor-centred, no taller than the
    limit, and the cursor moved down by the logo's height: a placed logo is
    never resized. *)
Theorem paste_logo_center_outcome (W : world) (cv cv' : canvas) (logo_path : string)
    (max_height y y' h : Z) :
  paste_logo_center W cv logo_path max_height y = Ok (cv', (y', h)) ->
  (raises (open_rgba W logo_path) /\ cv' = cv /\ y' = y /\ h = 0)
  \/ (exists logo x,
        open_rgba W logo_path = Ok logo
        /\ img_size logo = ((img_size logo).1, h) /\ h <= max_height
        /\ x <= cv_width cv - (img_size logo).1 - x <= x + 1
        /\ cv' = draw (AlphaComposite logo x y) cv /\ y' = y + h).
Proof. apply paste_logo_center_inv. Qed.

Lemma paste_logo_center_outcome_witness :
  let W := Sample.world_of [] in
  exists cv',
    paste_logo_center W (Sample.blank 1043 920) "small.png" 83 724 = Ok (cv', (784, 60))
    /\ cv' = draw (AlphaComposite Sample.small_logo 461 724) (Sample.blank 1043 920).
Proof.
  intros W.
  destruct (paste_logo_center W (Sample.blank 1043 920) "small.png" 83 724)
    as [[cv' [y' h]]|e] eqn:Hp; [|vm_compute in Hp; discriminate Hp].
  assert (Hyh : y' = 784 /\ h = 60) by (vm_compute in Hp; injection Hp as _ <- <-; auto).
  destruct Hyh as [-> ->]. exists cv'. split; [reflexivity|].
  destruct (paste_logo_center_outcome W _ cv' "small.png" 83 724 784 60 Hp)
    as [((e & He) & _)|(logo & x & Hopen & _ & _ & Hx & -> & _)].
  - vm_compute in He. discriminate He.
  - vm_compute in Hopen. injection Hopen as <-. f_equal. f_equal.
    cbn [Sample.blank cv_width Sample.small_logo img_size fst] in Hx. lia.
Defined.

(** ** What a composition draws *)

Lemma nonempty_of_ne (s : string) : s <> "" -> Str.nonempty s = true.
Proof. destruct s; [congruence | reflexivity]. Qed.

(** X11. A composition that succeeds has drawn, in this order: the border
    rectangle around the whole canvas exactly when the border is positive,
    the source image at the border offset, at most one logo, at most one
    line of brand text, and last the metadata line of the extracted
    parameters in the template's text colour, which is never left out; and
    the result was saved at the path it reports. *)
Theorem compose_layers (W : world) (tpl : gmap string pyval) (src : image)
    (out_path : string) (logo_path : option string) (fonts : list string)
    (fr : framed) :
  compose W tpl src out_path logo_path fonts = Ok fr ->
  exists params border frame_ops logo_ops brand_ops x y fnt color,
    extract_camera_params W src = Ok params
    /\ cv_ops (saved_canvas fr)
       = frame_ops ++ Paste src border border :: logo_ops ++ brand_ops
         ++ [Text x y (meta_line_of params) fnt color]
    /\ tpl !! "text_color" = Some color
    /\ (if 0 <? border
        then exists outline,
               tpl !! "border_color" = Some outline
               /\ frame_ops = [Rectangle 0 0 (cv_width (saved_canvas fr) - 1)
                                 (cv_height (saved_canvas fr) - 1) outline]
        else frame_ops = [])
    /\ (logo_ops = []
        \/ exists lp logo lx ly,
             logo_path = Some lp /\ open_rgba W lp = Ok logo
             /\ logo_ops = [AlphaComposite logo lx ly])
    /\ (brand_ops = []
        \/ exists text bx by_ bf, text <> "" /\ brand_ops = [Text bx by_ text bf color])
    /\ save W (saved_path fr) = Ok ().
Proof.
  intros Hc. pose proof (compose_saved _ _ _ _ _ _ _ Hc) as (border' & Hsz & Hpath).
  revert Hc Hsz. unfold compose. destruct (img_size src) as [w h]. cbn [fst snd].
  intros H Hsz.
  apply bind_Ok in H as (params & Hparams & H).
  apply bind_Ok in H as ([border [cw ch]] & Hsize & H).
  rewrite Hsize in Hsz. injection Hsz as _ Hcw Hch.
  apply bind_Ok in H as (bg & Hbg & H).
  apply bind_Ok in H as (fill & Hfill & H).
  apply bind_Ok in H as (cv0 & Hcv0 & H).
  apply bind_Ok in H as (brand_size & _ & H).
  apply bind_Ok in H as (meta_size & _ & H).
  apply bind_Ok in H as (gap & _ & H).
  apply bind_Ok in H as (logo_max_h & _ & H).
  apply bind_Ok in H as (brand_font & _ & H).
  apply bind_Ok in H as (meta_font & _ & H).
  apply bind_Ok in H as (use_logo & _ & H).
  apply bind_Ok in H as ([cv1 y1] & Hlogo & H).
  apply bind_Ok in H as (text_color & Htc & H).
  match type of H with
  | (let '(_, _) := ?p in _) = _ => destruct p as [cv3 y3] eqn:Hp
  end.
  apply bind_Ok in H as (cv5 & Hmeta & H).
  apply bind_Ok in H as (u1 & _ & H).
  apply bind_Ok in H as ([] & Hsave & H).
  injection H as <-. cbn [saved_canvas saved_path] in *.
  rewrite (nonempty_of_ne _ (meta_line_never_empty params)) in Hmeta.
  apply bind_Ok in Hmeta as (color & Hcolor & Hmeta).
  unfold getitem in Hcolor.
  destruct (tpl !! "text_color") as [color'|] eqn:Htext; [|discriminate].
  injection Hcolor as ->.
  unfold draw_centered_text in Hmeta.
  destruct (textbbox W meta_font (meta_line_of params)) as [mw mh].
  cbn [fst] in Hmeta. injection Hmeta as <-. cbn [draw cv_ops].
  (* the frame *)
  assert (Hframe : exists frame_ops,
             cv_ops cv0 = frame_ops
             /\ if 0 <? border
                then exists outline,
                       tpl !! "border_color" = Some outline
                       /\ frame_ops = [Rectangle 0 0 (cw - 1) (ch - 1) outline]
                else frame_ops = []).
  { destruct (0 <? border).
    - apply bind_Ok in Hcv0 as (outline & Hout & Hcv0). injection Hcv0 as <-.
      eexists. split; [reflexivity|]. exists outline. split; [|reflexivity].
      unfold getitem in Hout. destruct (tpl !! "border_color"); [|discriminate].
      injection Hout as ->. reflexivity.
    - injection Hcv0 as <-. eexists. split; reflexivity. }
  destruct Hframe as (frame_ops & Hops0 & Hframe).
  (* the logo *)
  assert (Hlogo' : exists logo_ops,
             cv_ops cv1 = frame_ops ++ Paste src border border :: logo_ops
             /\ (logo_ops = []
                 \/ exists lp logo lx ly,
                      logo_path = Some lp /\ open_rgba W lp = Ok logo
                      /\ logo_ops = [AlphaComposite logo lx ly])).
  { assert (Hnone : forall y, Ok (draw (Paste src border border) cv0, y) = Ok (cv1, y1) ->
                    exists logo_ops,
                      cv_ops cv1 = frame_ops ++ Paste src border border :: logo_ops
                      /\ (logo_ops = []
                          \/ exists lp logo lx ly,
                               logo_path = Some lp /\ open_rgba W lp = Ok logo
                               /\ logo_ops = [AlphaComposite logo lx ly])).
    { intros y0 [= <- _]. exists []. cbn [draw cv_ops]. rewrite Hops0.
      split; [reflexivity | left; reflexivity]. }
    destruct logo_path as [lp|]; [|exact (Hnone _ Hlogo)].
    destruct (truthy use_logo && Str.nonempty lp && path_exists W lp);
      [|exact (Hnone _ Hlogo)].
    apply bind_Ok in Hlogo as ([cv2 [y2 lh]] & Hpaste & Hlogo).
    injection Hlogo as <- _.
    apply paste_logo_center_inv in Hpaste
      as [(_ & -> & _)|(logo & lx & Hopen & _ & _ & _ & -> & _)].
    - exists []. cbn [draw cv_ops]. rewrite Hops0.
      split; [reflexivity | left; reflexivity].
    - exists [AlphaComposite logo lx
                (border + h
                 + Z.max 4 ((ch - border - (border + h)
                             - (logo_max_h + Z.max 12 brand_size + Z.max 10 meta_size + gap))
                            `div` 2))].
      cbn [draw cv_ops]. rewrite Hops0, <- app_assoc. split; [reflexivity|].
      right. exists lp, logo, lx. eexists.
      split; [reflexivity|]. split; [exact Hopen | reflexivity]. }
  destruct Hlogo' as (logo_ops & Hops1 & Hlogo').
  (* the brand *)
  assert (Hbrand : exists brand_ops,
             cv_ops cv3 = cv_ops cv1 ++ brand_ops
             /\ (brand_ops = []
                 \/ exists text bx by_ bf,
                      text <> "" /\ brand_ops = [Text bx by_ text bf color])).
  { destruct text_color as [c|].
    - match type of Htc with
      | (if ?b then _ else _) = _ => destruct b eqn:Hshow; [|discriminate Htc]
      end.
      apply andb_true_iff in Hshow as [_ Hne]. apply nonempty_true in Hne.
      unfold getitem in Htc. rewrite Htext in Htc. injection Htc as <-.
      unfold draw_centered_text in Hp.
      match type of Hp with
      | context [textbbox ?a ?b ?c] => destruct (textbbox a b c) as [bw bh]
      end.
      injection Hp as <- _. eexists. cbn [draw cv_ops]. split; [reflexivity|].
      right. do 4 eexists. split; [exact Hne | reflexivity].
    - injection Hp as <- _. exists []. rewrite app_nil_r.
      split; [reflexivity | left; reflexivity]. }
  destruct Hbrand as (brand_ops & Hops3 & Hbrand).
  exists params, border, frame_ops, logo_ops, brand_ops.
  do 2 eexists. exists meta_font, color.
  split; [exact Hparams|]. split.
  { rewrite Hops3, Hops1, <- !app_assoc. reflexivity. }
  split; [reflexivity|]. rewrite <- Hcw, <- Hch.
  split; [exact Hframe|]. split; [exact Hlogo'|]. split; [exact Hbrand|].
  exact Hsave.
Qed.

Lemma compose_layers_witness :
  let W := Sample.world_of Sample.exif_no_focal in
  let src := Sample.photo Sample.exif_no_focal in
  exists fr x y fnt color,
    compose W Nikon_like src "out" (Some "small.png") default_fonts = Ok fr
    /\ last (cv_ops (saved_canvas fr)) = Some (Text x y "F1.8  1/100s  ISO100" fnt color).
Proof.
  intros W src.
  destruct (compose W Nikon_like src "out" (Some "small.png") default_fonts)
    as [fr|e] eqn:Hc; [|vm_compute in Hc; discriminate Hc].
  destruct (compose_layers W Nikon_like src "out" (Some "small.png") default_fonts fr Hc)
    as (params & border & frame_ops & logo_ops & brand_ops & x & y & fnt & color
        & Hparams & Hops & _).
  assert (Hm : meta_line_of <$> extract_camera_params W src = Ok "F1.8  1/100s  ISO100")
    by (vm_compute; reflexivity).
  rewrite Hparams in Hm. injection Hm as Hm. rewrite Hm in Hops.
  exists fr, x, y, fnt, color. split; [reflexivity|].
  rewrite Hops, app_comm_cons, !app_assoc. apply last_snoc.
Defined.

(** ** Templates and the entry point *)

Lemma getitem_is_Some {A : Type} (d : gmap string A) (key : string) (v : A) :
  getitem d key = Ok v -> d !! key = Some v.
Proof. unfold getitem. destruct (d !! key); [intros [= ->]; reflexivity | discriminate]. Qed.

Lemma scaled_is_Some (tpl : gmap string pyval) (key : string) (n z : Z) :
  scaled tpl key n = Ok z -> is_Some (tpl !! key).
Proof.
  unfold scaled. intros H. apply bind_Ok in H as (v & Hv & _).
  apply getitem_is_Some in Hv. rewrite Hv. eexists. reflexivity.
Qed.

Lemma compose_needs_keys (W : world) (tpl : gmap string pyval) (src : image)
    (out_path : string) (logo_path : option string) (fonts : list string)
    (fr : framed) :
  compose W tpl src out_path logo_path fonts = Ok fr ->
  Forall (fun key => is_Some (tpl !! key)) required_keys.
Proof.
  unfold compose. destruct (img_size src) as [w h]. intros H.
  apply bind_Ok in H as (params & _ & H).
  apply bind_Ok in H as ([border [cw ch]] & Hsize & H).
  apply bind_Ok in H as (bg & Hbg & H).
  apply bind_Ok in H as (fill & _ & H).
  apply bind_Ok in H as (cv0 & _ & H).
  apply bind_Ok in H as (brand_size & Hbrand & H).
  apply bind_Ok in H as (meta_size & Hmsize & H).
  apply bind_Ok in H as (gap & Hgap & H).
  apply bind_Ok in H as (logo_max_h & Hlmh & H).
  apply bind_Ok in H as (brand_font & _ & H).
  apply bind_Ok in H as (meta_font & _ & H).
  apply bind_Ok in H as (use_logo & Huse & H).
  apply bind_Ok in H as ([cv1 y1] & _ & H).
  apply bind_Ok in H as (text_color & _ & H).
  match type of H with
  | (let '(_, _) := ?p in _) = _ => destruct p as [cv3 y3]
  end.
  apply bind_Ok in H as (cv5 & Hmeta & _).
  rewrite (nonempty_of_ne _ (meta_line_never_empty params)) in Hmeta.
  apply bind_Ok in Hmeta as (color & Hcolor & _).
  unfold canvas_size in Hsize.
  apply bind_Ok in Hsize as (b & Hb & Hsize).
  apply bind_Ok in Hsize as (bpx & _ & Hsize).
  apply bind_Ok in Hsize as (band & Hband & _).
  apply getitem_is_Some in Hb, Hbg, Huse, Hcolor.
  apply scaled_is_Some in Hband, Hbrand, Hmsize, Hgap, Hlmh.
  unfold required_keys. repeat constructor; try assumption; eexists; eassumption.
Qed.

(** X12. A composition can succeed only under a template that defines the
    nine keys it reads unconditionally; [show_brand_text], [show_meta_text]
    and, without a border, [border_color] are not among them. *)
Theorem compose_required_keys (W : world) (tpl : gmap string pyval) (src : image)
    (out_path : string) (logo_path : option string) (fonts : list string)
    (fr : framed) (key : string) :
  compose W tpl src out_path logo_path fonts = Ok fr ->
  key ∈ required_keys -> is_Some (tpl !! key).
Proof.
  intros Hc Hk. pose proof (compose_needs_keys _ _ _ _ _ _ _ Hc) as Hall.
  rewrite Forall_forall in Hall. apply Hall, Hk.
Qed.

Lemma compose_required_keys_witness :
  let W := Sample.world_of Sample.exif_no_focal in
  let src := Sample.photo Sample.exif_no_focal in
  exists fr,
    compose W Nikon_like src "out" None default_fonts = Ok fr
    /\ is_Some (Nikon_like !! "meta_font_size_ratio").
Proof.
  intros W src.
  destruct (compose W Nikon_like src "out" None default_fonts) as [fr|e] eqn:Hc;
    [|vm_compute in Hc; discriminate Hc].
  exists fr. split; [reflexivity|].
  apply (compose_required_keys W Nikon_like src "out" None default_fonts fr
           "meta_font_size_ratio" Hc).
  unfold required_keys. repeat first [apply list_elem_of_here | apply list_elem_of_further].
Defined.

(** X13. Under the template [minimal_black] nothing is ever saved: for every
    source, output path, logo, font list and environment the call returns
    without a result (the source did not open) or raises. *)
Theorem minimal_black_never_saves (W : world) (img_path out_path : string)
    (logo_path : option string) (fonts : option (list string)) :
  make_framed_image W img_path out_path logo_path "minimal_black" fonts = Ok None
  \/ raises (make_framed_image W img_path out_path logo_path "minimal_black" fonts).
Proof.
  unfold make_framed_image.
  change (default Nikon_like (DeFAULT_TEMPLATE !! "minimal_black")) with minimal_black.
  destruct (open_rgb W img_path) as [src|e]; [|left; reflexivity].
  destruct (compose W minimal_black src out_path logo_path (default default_fonts fonts))
    as [fr|e] eqn:Hc; [|right; exists e; reflexivity].
  apply compose_needs_keys in Hc. rewrite Forall_forall in Hc.
  assert (Hk : is_Some (minimal_black !! "meta_font_size_ratio")).
  { apply Hc. unfold required_keys.
    repeat first [apply list_elem_of_here | apply list_elem_of_further]. }
  destruct Hk as [v Hv]. vm_compute in Hv. discriminate Hv.
Qed.

(** X14. Every template name other than "minimal_black" selects the
    template [Nikon_like]: an unknown name is not an error. *)
Theorem template_fallback (W : world) (img_path out_path : string)
    (logo_path : option string) (template_name : string)
    (fonts : option (list string)) :
  template_name <> "minimal_black" ->
  make_framed_image W img_path out_path logo_path template_name fonts
  = make_framed_image W img_path out_path logo_path "Nikon_like" fonts.
Proof.
  intros Hne. unfold make_framed_image.
  assert (Ht : default Nikon_like (DeFAULT_TEMPLATE !! template_name) = Nikon_like).
  { unfold DeFAULT_TEMPLATE.
    destruct (decide (template_name = "Nikon_like")) as [->|Hn].
    - rewrite lookup_insert_eq. reflexivity.
    - rewrite lookup_insert_ne by congruence.
      rewrite lookup_insert_ne by congruence. rewrite lookup_empty. reflexivity. }
  rewrite Ht.
  change (default Nikon_like (DeFAULT_TEMPLATE !! "Nikon_like")) with Nikon_like.
  reflexivity.
Qed.

Lemma template_fallback_witness :
  let W := Sample.world_of Sample.exif_no_focal in
  make_framed_image W "photo.jpg" "out" None "Canon_style" None
  = make_framed_image W "photo.jpg" "out" None "Nikon_like" None.
Proof.
  intros W. apply (template_fallback W "photo.jpg" "out" None "Canon_style" None).
  discriminate.
Defined.

(** X15. [make_framed_image] returns without a result exactly when the
    source image cannot be opened or converted; every later failure is
    raised to the caller. *)
Theorem make_framed_image_silent (W : world) (img_path out_path : string)
    (logo_path : option string) (template_name : string)
    (fonts : option (list string)) :
  make_framed_image W img_path out_path logo_path template_name fonts = Ok None
  <-> raises (open_rgb W img_path).
Proof.
  unfold make_framed_image. destruct (open_rgb W img_path) as [src|e]; split.
  - destruct (compose _ _ _ _ _ _); discriminate.
  - intros [e He]. discriminate He.
  - intros _. exists e. reflexivity.
  - reflexivity.
Qed.

(** ** Slices and [os.path.splitext] *)

Lemma chars_cons (a : ascii) (s : string) : Str.chars (String a s) = a :: Str.chars s.
Proof. reflexivity. Qed.

Lemma of_chars_chars (s : string) : Str.of_chars (Str.chars s) = s.
Proof.
  induction s as [|a s IH]; [reflexivity|].
  change (String a (Str.of_chars (Str.chars s)) = String a s). rewrite IH. reflexivity.
Qed.

Lemma chars_of_chars (l : list ascii) : Str.chars (Str.of_chars l) = l.
Proof.
  induction l as [|a l IH]; [reflexivity|].
  change (a :: Str.chars (Str.of_chars l) = a :: l). rewrite IH. reflexivity.
Qed.

Lemma append_nil_r (s : string) : s +:+ "" = s.
Proof.
  induction s as [|a s IH]; [reflexivity|].
  change (String a s +:+ "") with (String a (s +:+ "")). rewrite IH. reflexivity.
Qed.

Lemma chars_length (s : string) : length (Str.chars s) = String.length s.
Proof. induction s as [|a s IH]; [reflexivity|]. rewrite chars_cons. simpl. rewrite IH. reflexivity. Qed.

Lemma chars_inj (s t : string) : Str.chars s = Str.chars t -> s = t.
Proof. intros H. rewrite <- (of_chars_chars s), H. apply of_chars_chars. Qed.

Lemma upto_app (pre post : string) :
  Slice.upto (Z.of_nat (String.length pre)) (pre +:+ post) = pre.
Proof.
  unfold Slice.upto. rewrite Nat2Z.id, chars_app, <- chars_length.
  rewrite take_app_length. apply of_chars_chars.
Qed.

Lemma from_app (pre post : string) :
  Slice.from (Z.of_nat (String.length pre)) (pre +:+ post) = post.
Proof.
  unfold Slice.from. rewrite Nat2Z.id, chars_app, <- chars_length.
  rewrite drop_app_length. apply of_chars_chars.
Qed.

Lemma rfind_cons (c a : ascii) (r : string) :
  Slice.rfind c (String a r)
  = if 0 <=? Slice.rfind c r then Slice.rfind c r + 1
    else if Ascii.eqb a c then 0 else -1.
Proof. reflexivity. Qed.

(** [rfind] finds nothing, or the last occurrence. *)
Lemma rfind_spec (c : ascii) (p : string) :
  (Slice.rfind c p = -1 /\ c ∉ Str.chars p)
  \/ (exists pre post,
        p = pre +:+ String c post
        /\ Slice.rfind c p = Z.of_nat (String.length pre)
        /\ c ∉ Str.chars post).
Proof.
  induction p as [|a r IH].
  - left. split; [reflexivity|]. apply not_elem_of_nil.
  - rewrite rfind_cons. destruct IH as [[Hi Hno]|(pre & post & -> & Hi & Hno)].
    + rewrite Hi. change (0 <=? -1) with false. cbn match.
      destruct (Ascii.eqb_spec a c) as [->|Hne].
      * right. exists "", r. repeat split; assumption.
      * left. split; [reflexivity|]. rewrite chars_cons.
        apply not_elem_of_cons. split; [congruence | assumption].
    + right. exists (String a pre), post. rewrite Hi.
      destruct (Z.leb_spec 0 (Z.of_nat (String.length pre))); [|lia].
      repeat split; [|assumption]. cbn [String.length]. lia.
Qed.

Lemma rfind_none (c : ascii) (p : string) : c ∉ Str.chars p -> Slice.rfind c p = -1.
Proof.
  intros Hno. destruct (rfind_spec c p) as [[Hi _]|(pre & post & -> & _ & _)]; [exact Hi|].
  exfalso. apply Hno. rewrite chars_app, chars_cons.
  apply elem_of_app. right. apply list_elem_of_here.
Qed.

Lemma rfind_app_notin (c : ascii) (pre post : string) :
  c ∉ Str.chars post -> Slice.rfind c (pre +:+ post) = Slice.rfind c pre.
Proof.
  intros Hno. induction pre as [|a pre IH].
  - change ("" +:+ post) with post. rewrite (rfind_none _ _ Hno). reflexivity.
  - change (String a pre +:+ post) with (String a (pre +:+ post)).
    rewrite !rfind_cons, IH. reflexivity.
Qed.

Lemma rfind_app_last (c : ascii) (pre post : string) :
  c ∉ Str.chars post ->
  Slice.rfind c (pre +:+ String c post) = Z.of_nat (String.length pre).
Proof.
  intros Hno. induction pre as [|a pre IH].
  - change ("" +:+ String c post) with (String c post).
    rewrite rfind_cons, (rfind_none _ _ Hno). change (0 <=? -1) with false.
    cbn match. rewrite Ascii.eqb_refl. reflexivity.
  - change (String a pre +:+ String c post) with (String a (pre +:+ String c post)).
    rewrite rfind_cons, IH.
    destruct (Z.leb_spec 0 (Z.of_nat (String.length pre))); [|lia].
    cbn [String.length]. lia.
Qed.

Lemma rfind_app_in (c : ascii) (pre post : string) :
  c ∈ Str.chars post -> Z.of_nat (String.length pre) <= Slice.rfind c (pre +:+ post).
Proof.
  intros Hin. induction pre as [|a pre IH].
  - change ("" +:+ post) with post. cbn [String.length].
    destruct (rfind_spec c post) as [[_ Hno]|(pre & post' & _ & -> & _)]; [contradiction|lia].
  - change (String a pre +:+ post) with (String a (pre +:+ post)). rewrite rfind_cons.
    destruct (Z.leb_spec 0 (Slice.rfind c (pre +:+ post))); cbn [String.length]; lia.
Qed.

Lemma rfind_upper (c : ascii) (p : string) :
  -1 <= Slice.rfind c p < Z.of_nat (String.length p).
Proof.
  induction p as [|a r IH]; [cbn; lia|]. rewrite rfind_cons. cbn [String.length].
  destruct (Z.leb_spec 0 (Slice.rfind c r)); [lia|]. destruct (Ascii.eqb a c); lia.
Qed.

(** The loop of [splitext] looks for a character other than a dot between
    the start of the file name and the last dot. *)
Lemma skip_leading_dots_spec (p : string) (dotIndex : Z) (fuel : nat) (filenameIndex : Z) :
  0 <= filenameIndex -> dotIndex <= Z.of_nat (String.length p) ->
  dotIndex - filenameIndex <= Z.of_nat fuel ->
  skip_leading_dots fuel p dotIndex filenameIndex
  = if forallb (fun a => Ascii.eqb a ".")
         (take (Z.to_nat (dotIndex - filenameIndex))
            (drop (Z.to_nat filenameIndex) (Str.chars p)))
    then (p, "")
    else (Slice.upto dotIndex p, Slice.from dotIndex p).
Proof.
  intros Hfi Hd. revert filenameIndex Hfi.
  induction fuel as [|fuel IH]; intros fi Hfi Hfuel.
  - cbn [skip_leading_dots]. replace (Z.to_nat (dotIndex - fi)) with 0%nat by lia.
    reflexivity.
  - cbn [skip_leading_dots]. destruct (Z.ltb_spec fi dotIndex) as [Hlt|Hge].
    + replace (Z.to_nat (dotIndex - fi)) with (S (Z.to_nat (dotIndex - (fi + 1)))) by lia.
      unfold Slice.at_index.
      destruct (drop (Z.to_nat fi) (Str.chars p)) as [|a rest] eqn:Hdrop.
      { apply (f_equal length) in Hdrop. rewrite length_drop, chars_length in Hdrop.
        cbn [length] in Hdrop. lia. }
      assert (Hrest : drop (Z.to_nat (fi + 1)) (Str.chars p) = rest).
      { replace (Z.to_nat (fi + 1)) with (Z.to_nat fi + 1)%nat by lia.
        rewrite <- drop_drop, Hdrop. reflexivity. }
      cbn [take forallb]. change (Str.of_chars [a]) with (String a "").
      destruct (Ascii.eqb_spec a ".") as [->|Hne].
      * rewrite bool_decide_eq_false_2 by (intros Hc; apply Hc; reflexivity).
        cbn [andb]. rewrite IH by lia. rewrite Hrest. reflexivity.
      * rewrite bool_decide_eq_true_2 by (intros [= ->]; apply Hne; reflexivity).
        reflexivity.
    + replace (Z.to_nat (dotIndex - fi)) with 0%nat by lia. reflexivity.
Qed.

Lemma basename_chars (root : string) :
  Str.chars (basename root)
  = drop (Z.to_nat (Slice.rfind "/" root + 1)) (Str.chars root).
Proof. unfold basename, Slice.from. apply chars_of_chars. Qed.

Lemma splitext_dot (root r : string) :
  "."%char ∉ Str.chars r -> "/"%char ∉ Str.chars r ->
  splitext (root +:+ String "." r)
  = if only_dots (basename root) then (root +:+ String "." r, "")
    else (root, String "." r).
Proof.
  intros Hdot Hsep. unfold splitext.
  rewrite (rfind_app_last _ _ _ Hdot).
  rewrite rfind_app_notin
    by (rewrite chars_cons; apply not_elem_of_cons; split; [discriminate | assumption]).
  pose proof (rfind_upper "/" root) as Hb.
  destruct (Z.ltb_spec (Slice.rfind "/" root) (Z.of_nat (String.length root))); [|lia].
  rewrite skip_leading_dots_spec.
  - rewrite upto_app, from_app. unfold only_dots. rewrite basename_chars.
    rewrite chars_app, take_drop_commute.
    replace (Z.to_nat (Slice.rfind "/" root + 1)
             + Z.to_nat (Z.of_nat (String.length root) - (Slice.rfind "/" root + 1)))%nat
      with (length (Str.chars root)) by (rewrite chars_length; lia).
    rewrite take_app_length. reflexivity.
  - lia.
  - rewrite <- !chars_length, chars_app, length_app. lia.
  - lia.
Qed.

(** [os.path.splitext] cuts the path into two parts that concatenate back
    to it; the extension is empty, or it starts at the last dot, holds no
    separator, and the file name before it is not made of dots only. *)
Lemma splitext_parts (p : string) :
  (splitext p).1 +:+ (splitext p).2 = p
  /\ ((splitext p).2 = ""
      \/ exists r, (splitext p).2 = String "." r
                   /\ ("."%char ∉ Str.chars r) /\ ("/"%char ∉ Str.chars r)
                   /\ only_dots (basename (splitext p).1) = false).
Proof.
  assert (Hwhole : splitext p = (p, "") ->
                   (splitext p).1 +:+ (splitext p).2 = p
                   /\ ((splitext p).2 = ""
                       \/ exists r, (splitext p).2 = String "." r
                                    /\ ("."%char ∉ Str.chars r) /\ ("/"%char ∉ Str.chars r)
                                    /\ only_dots (basename (splitext p).1) = false)).
  { intros ->. cbn [fst snd]. split; [apply append_nil_r | left; reflexivity]. }
  destruct (rfind_spec "." p) as [[Hi Hno]|(pre & post & Hp & Hi & Hno)].
  - apply Hwhole. unfold splitext. rewrite Hi.
    pose proof (rfind_upper "/" p).
    destruct (Z.ltb_spec (Slice.rfind "/" p) (-1)); [lia | reflexivity].
  - destruct (decide ("/"%char ∈ Str.chars post)) as [Hin|Hnin].
    + apply Hwhole. unfold splitext. rewrite Hi. subst p.
      assert (Hin' : "/"%char ∈ Str.chars (String "." post))
        by (rewrite chars_cons; apply list_elem_of_further, Hin).
      pose proof (rfind_app_in "/" pre _ Hin').
      destruct (Z.ltb_spec (Slice.rfind "/" (pre +:+ String "." post))
                  (Z.of_nat (String.length pre))); [lia | reflexivity].
    + subst p. rewrite (splitext_dot _ _ Hno Hnin).
      destruct (only_dots (basename pre)) eqn:Hod; cbn [fst snd].
      * split; [apply append_nil_r | left; reflexivity].
      * split; [reflexivity|]. right. exists post. repeat split; assumption.
Qed.

Lemma lower_char_fixed (a : ascii) :
  (Str.lower_char a = "."%char -> a = "."%char)
  /\ (Str.lower_char a = "/"%char -> a = "/"%char).
Proof.
  destruct a as [[] [] [] [] [] [] [] []]; split; vm_compute; intros H;
    first [reflexivity | discriminate H].
Qed.

Lemma lower_notin (c : ascii) (s : string) :
  (forall a, Str.lower_char a = c -> a = c) -> Str.lower_char c = c ->
  c ∉ Str.chars (Str.lower s) -> c ∉ Str.chars s.
Proof.
  intros _ Hc Hno Hin. apply Hno. rewrite chars_lower, <- Hc.
  apply list_elem_of_fmap_2, Hin.
Qed.

Lemma image_extension_shape (ext : string) :
  Str.lower ext ∈ image_extensions ->
  exists r, ext = String "." r /\ ("."%char ∉ Str.chars r) /\ ("/"%char ∉ Str.chars r).
Proof.
  intros Hin. destruct ext as [|a r].
  { apply list_elem_of_In in Hin. simpl in Hin. intuition discriminate. }
  exists r. change (Str.lower (String a r)) with (String (Str.lower_char a) (Str.lower r)) in Hin.
  assert (Hl : Str.lower_char a = "."%char
               /\ Str.lower r ∈ ["png"; "jpg"; "jpeg"; "bmp"; "gif"]).
  { apply list_elem_of_In in Hin. simpl in Hin.
    destruct Hin as [H|[H|[H|[H|[H|[]]]]]]; injection H as <- <-;
      (split; [reflexivity|]);
      repeat first [apply list_elem_of_here | apply list_elem_of_further]. }
  destruct Hl as [Ha Hr]. apply (proj1 (lower_char_fixed a)) in Ha. subst a.
  split; [reflexivity|].
  assert (Hfree : ("."%char ∉ Str.chars (Str.lower r)) /\ ("/"%char ∉ Str.chars (Str.lower r))).
  { apply list_elem_of_In in Hr. simpl in Hr.
    destruct Hr as [H|[H|[H|[H|[H|[]]]]]]; rewrite <- H;
      split; intros Hc; apply list_elem_of_In in Hc; simpl in Hc;
      intuition discriminate. }
  destruct Hfree as [Hd Hs]. split.
  - apply (lower_notin "." r); [apply lower_char_fixed | reflexivity | exact Hd].
  - apply (lower_notin "/" r); [apply lower_char_fixed | reflexivity | exact Hs].
Qed.

(** X16. [is_image_file] accepts exactly the names that end in one of the five
    extensions, in any letter case, after a file name that is not made of
    dots only: ".jpg" and "dir/..png" are not image files. *)
Theorem is_image_file_spec (name : string) :
  is_image_file name = true
  <-> exists root ext,
        name = root +:+ ext /\ Str.lower ext ∈ image_extensions
        /\ only_dots (basename root) = false.
Proof.
  unfold is_image_file. rewrite bool_decide_eq_true. split.
  - intros Hin. destruct (splitext_parts name) as [Hcat [Hext|(r & Hext & _ & _ & Hod)]].
    + rewrite Hext in Hin. apply list_elem_of_In in Hin. simpl in Hin.
      intuition discriminate.
    + exists (splitext name).1, (splitext name).2.
      split; [symmetry; exact Hcat|]. split; assumption.
  - intros (root & ext & -> & Hin & Hod).
    destruct (image_extension_shape _ Hin) as (r & -> & Hdot & Hsep).
    rewrite (splitext_dot _ _ Hdot Hsep), Hod. exact Hin.
Qed.

(** ** The command line *)

Lemma basename_no_sep (p : string) : "/"%char ∉ Str.chars (basename p).
Proof.
  rewrite basename_chars.
  destruct (rfind_spec "/" p) as [[-> Hno]|(pre & post & -> & -> & Hno)].
  - exact Hno.
  - rewrite chars_app, chars_cons.
    replace (Z.to_nat (Z.of_nat (String.length pre) + 1))
      with (length (Str.chars pre ++ ["/"%char]))
      by (rewrite length_app, chars_length; cbn [length]; lia).
    change (Str.chars pre ++ "/"%char :: Str.chars post)
      with (Str.chars pre ++ ["/"%char] ++ Str.chars post).
    rewrite app_assoc, drop_app_length. exact Hno.
Qed.

Lemma splitext_root_no_sep (q : string) :
  "/"%char ∉ Str.chars q -> "/"%char ∉ Str.chars (splitext q).1.
Proof.
  intros Hno Hin. apply Hno. rewrite <- (proj1 (splitext_parts q)), chars_app.
  apply elem_of_app. left. exact Hin.
Qed.

Lemma dirname_no_sep (s : string) : "/"%char ∉ Str.chars s -> Path.dirname s = "".
Proof.
  intros Hno. assert (Hhead : Path.upto_last_sep s = "").
  { induction s as [|a s IH]; [reflexivity|].
    rewrite chars_cons in Hno. apply not_elem_of_cons in Hno as [Ha Hs].
    cbn [Path.upto_last_sep]. rewrite (IH Hs).
    destruct (Ascii.eqb_spec a "/"); [congruence | reflexivity]. }
  unfold Path.dirname. rewrite Hhead. reflexivity.
Qed.

Lemma framed_not_jpg (stem : string) :
  Str.endswith (Str.lower (stem +:+ "_framed")) ".jpg" = false.
Proof.
  unfold Str.endswith. apply bool_decide_eq_false_2. intros Hs.
  rewrite chars_lower, chars_app, map_app in Hs.
  apply suffix_app_long in Hs; [|cbn; lia].
  assert (Hn : ¬ (Str.chars ".jpg" `suffix_of` map Str.lower_char (Str.chars "_framed"))).
  { apply (bool_decide_eq_false_1 _). vm_compute. reflexivity. }
  exact (Hn Hs).
Qed.

(** X17. In batch mode [main] stops before it touches any file: with
    [--output_dir] missing it exits, and with it the read of the attribute
    [out_dir], which the namespace does not have, ends the run; no listing is
    read and no image is processed. *)
Theorem main_batch_stops (W : world) (listdir : option string -> result (list string))
    (args : arguments) :
  given (arg_input args) = false ->
  main W listdir args
  = inl (if given (arg_output_dir args) then AttributeError "out_dir" else SystemExit).
Proof.
  intros Hin. unfold main. rewrite Hin.
  destruct (given (arg_output_dir args)); reflexivity.
Qed.

(** X18. With [--input] and without [--out], what [main] saves goes to the
    working directory, whatever directory the input is in, under the input's
    file name with its extension replaced by "_framed.jpg". *)
Theorem main_default_output (W : world) (listdir : option string -> result (list string))
    (args : arguments) (input : string) (fr : framed) :
  arg_input args = Some input -> given (arg_out args) = false ->
  main W listdir args = inr (Single (Some fr)) ->
  saved_path fr
  = Path.join (getcwd W) ((splitext (basename input)).1 +:+ "_framed") +:+ ".jpg".
Proof.
  intros Hinput Hout. unfold main, make_framed_image.
  rewrite Hinput, Hout. change (default "" (Some input)) with input. cbn [given].
  destruct (Str.nonempty input);
    [|intros H; destruct (given (arg_output_dir args)); discriminate H].
  destruct (open_rgb W input) as [src|e]; [|intros H; discriminate H].
  destruct (compose _ _ _ _ _ _) as [fr'|e] eqn:Hc; [|intros H; discriminate H].
  intros H. injection H as ->. apply compose_saved in Hc as (border & _ & ->).
  rewrite output_path_extension. unfold default_out.
  rewrite framed_not_jpg. unfold located.
  rewrite dirname_no_sep; [reflexivity|].
  rewrite chars_app. intros [Hin|Hin]%elem_of_app.
  - exact (splitext_root_no_sep _ (basename_no_sep input) Hin).
  - apply list_elem_of_In in Hin. simpl in Hin. intuition discriminate.
Qed.

Lemma main_batch_stops_witness :
  let W := Sample.world_of [] in
  let args := {| arg_input := None; arg_input_dir := Some "shots"; arg_out := None;
                 arg_output_dir := Some "framed"; arg_logo := None;
                 arg_template := "Nikon_like"; arg_font := [] |} in
  main W (fun _ => Ok ["photo.jpg"]) args = inl (AttributeError "out_dir").
Proof.
  intros W args. apply (main_batch_stops W (fun _ => Ok ["photo.jpg"]) args).
  reflexivity.
Defined.

Lemma main_default_output_witness :
  let W := Sample.world_of Sample.exif_no_focal in
  let args := {| arg_input := Some "photo.jpg"; arg_input_dir := None; arg_out := None;
                 arg_output_dir := None; arg_logo := None;
                 arg_template := "Nikon_like"; arg_font := [] |} in
  exists fr,
    main W (fun _ => Ok []) args = inr (Single (Some fr))
    /\ saved_path fr = "/home/user/photo_framed.jpg".
Proof.
  intros W args.
  destruct (main W (fun _ => Ok []) args) as [e|[[fr|]|rs]] eqn:Hm;
    try (vm_compute in Hm; discriminate Hm).
  exists fr. split; [reflexivity|].
  rewrite (main_default_output W (fun _ => Ok []) args "photo.jpg" fr eq_refl eq_refl Hm).
  vm_compute. reflexivity.
Defined.

(** ** The output path *)

Lemma upto_last_sep_empty (p : string) :
  Path.upto_last_sep p = "" <-> "/"%char ∉ Str.chars p.
Proof.
  induction p as [|a p IH].
  - split; [intros _; apply not_elem_of_nil | reflexivity].
  - rewrite chars_cons, not_elem_of_cons, <- IH. cbn [Path.upto_last_sep].
    destruct (Path.upto_last_sep p) as [|b h].
    + destruct (Ascii.eqb_spec a "/") as [->|Hne]; split.
      * discriminate.
      * intros [Hc _]. congruence.
      * intros _. split; [congruence | reflexivity].
      * reflexivity.
    + split; [discriminate | intros [_ H]; discriminate H].
Qed.

Lemma upto_last_sep_app (p s : string) :
  "/"%char ∉ Str.chars s -> Path.upto_last_sep (p +:+ s) = Path.upto_last_sep p.
Proof.
  intros Hno. induction p as [|a p IH].
  - apply upto_last_sep_empty, Hno.
  - change (String a p +:+ s) with (String a (p +:+ s)).
    cbn [Path.upto_last_sep]. rewrite IH. reflexivity.
Qed.

Lemma rstrip_empty (s : string) : Str.rstrip "/" s = "" -> Path.all_sep s = true.
Proof.
  induction s as [|a s IH]; [reflexivity|]. cbn [Str.rstrip Path.all_sep].
  destruct (Str.rstrip "/" s); [|discriminate].
  destruct (Ascii.eqb a "/"); [|discriminate]. intros _. apply IH. reflexivity.
Qed.

Lemma dirname_empty (p : string) :
  Str.nonempty (Path.dirname p) = false <-> "/"%char ∉ Str.chars p.
Proof.
  rewrite <- upto_last_sep_empty. unfold Path.dirname.
  destruct (Path.upto_last_sep p) as [|a h] eqn:Hhead.
  - split; reflexivity.
  - cbn [Str.nonempty andb]. destruct (Path.all_sep (String a h)) eqn:Hall; cbn [negb].
    + split; discriminate.
    + split; [|discriminate]. intros Hne.
      destruct (Str.rstrip "/" (String a h)) eqn:Hr; [|discriminate Hne].
      apply rstrip_empty in Hr. congruence.
Qed.

Lemma dirname_app (p s : string) :
  "/"%char ∉ Str.chars s -> Path.dirname (p +:+ s) = Path.dirname p.
Proof. intros Hno. unfold Path.dirname. rewrite (upto_last_sep_app _ _ Hno). reflexivity. Qed.

Lemma located_fixed (W : world) (p : string) : located W (located W p) = located W p.
Proof.
  unfold located at 2 3. destruct (Str.nonempty (Path.dirname p)) eqn:Hd.
  { unfold located. rewrite Hd. reflexivity. }
  unfold located.
  destruct (Str.nonempty (Path.dirname (Path.join (getcwd W) p))) eqn:Hd'; [reflexivity|].
  apply dirname_empty in Hd, Hd'. revert Hd'. unfold Path.join.
  assert (Hs : Str.startswith p "/" = false).
  { apply bool_decide_eq_false_2. intros [k Hk]. apply Hd. rewrite Hk.
    apply list_elem_of_here. }
  rewrite Hs. destruct (getcwd W) as [|c cwd] eqn:Hcwd.
  - cbn [Str.nonempty negb orb]. intros _.
    change ("" +:+ p) with p. rewrite Hs. reflexivity.
  - cbn [Str.nonempty negb orb].
    destruct (Str.endswith (String c cwd) "/") eqn:Hend; intros Hno; exfalso; apply Hno.
    + apply bool_decide_eq_true_1 in Hend. destruct Hend as [k Hk].
      rewrite chars_app, Hk, <- app_assoc. apply elem_of_app. right.
      apply list_elem_of_here.
    + rewrite !chars_app. apply elem_of_app. right. apply list_elem_of_here.
Qed.

Lemma located_app (W : world) (p s : string) :
  "/"%char ∉ Str.chars s -> located W p = p -> located W (p +:+ s) = p +:+ s.
Proof.
  intros Hno. unfold located. rewrite (dirname_app _ _ Hno).
  destruct (Str.nonempty (Path.dirname p)) eqn:Hd; [reflexivity|].
  apply dirname_empty in Hd. unfold Path.join.
  assert (Hs : Str.startswith p "/" = false).
  { apply bool_decide_eq_false_2. intros [k Hk]. apply Hd. rewrite Hk.
    apply list_elem_of_here. }
  rewrite Hs.
  assert (Hs' : Str.startswith (p +:+ s) "/" = false).
  { apply bool_decide_eq_false_2. intros [k Hk]. rewrite chars_app in Hk.
    assert (Hin : "/"%char ∈ Str.chars p ++ Str.chars s)
      by (rewrite Hk; apply list_elem_of_here).
    apply elem_of_app in Hin as [Hin|Hin]; [exact (Hd Hin) | exact (Hno Hin)]. }
  rewrite Hs'.
  destruct (negb (Str.nonempty (getcwd W)) || Str.endswith (getcwd W) "/").
  - intros Hfix. rewrite <- append_assoc, Hfix. reflexivity.
  - intros Hfix. transitivity ((getcwd W +:+ "/" +:+ p) +:+ s);
      [|rewrite Hfix; reflexivity].
    rewrite !append_assoc. reflexivity.
Qed.

Lemma endswith_app_self (a suf : string) :
  Str.endswith (Str.lower (a +:+ suf)) (Str.lower suf) = true.
Proof.
  apply bool_decide_eq_true_2. rewrite !chars_lower, chars_app, map_app.
  exists (map Str.lower_char (Str.chars a)). reflexivity.
Qed.

(** X19. The path a composition saves under always ends in ".jpg", in some
    letter case, and is a fixed point of the rule that settles it: given as
    the output path of another run, it is used unchanged. *)
Theorem output_path_fixed (W : world) (out_path : string) :
  Str.endswith (Str.lower (output_path W out_path)) ".jpg" = true
  /\ output_path W (output_path W out_path) = output_path W out_path.
Proof.
  assert (Hend : Str.endswith (Str.lower (output_path W out_path)) ".jpg" = true).
  { rewrite output_path_extension.
    destruct (Str.endswith (Str.lower out_path) ".jpg") eqn:Hjpg.
    - unfold located. destruct (Str.nonempty (Path.dirname out_path)); [exact Hjpg|].
      destruct (join_shape (getcwd W) out_path) as (pre & -> & Hpre).
      rewrite (endswith_jpg_under_prefix _ _ Hpre). exact Hjpg.
    - exact (endswith_app_self (located W out_path) ".jpg"). }
  split; [exact Hend|].
  rewrite (output_path_extension W (output_path W out_path)), Hend.
  rewrite output_path_extension.
  destruct (Str.endswith (Str.lower out_path) ".jpg"); [apply located_fixed|].
  apply located_app; [|apply located_fixed].
  intros Hin. apply list_elem_of_In in Hin. simpl in Hin. intuition discriminate.
Qed.
